(** * Duplicate cleaner for a Drive folder: model of [clean_duplicates.py]

    The script lists the files of a folder, groups them by name, keeps the
    most recently modified copy of every name that occurs more than once
    and deletes the others (or only reports them, in a dry run).

    Python values are modelled as follows.
    - A file record (a [dict] decoded from the listing response) is a finite
      map from field names to strings.
    - A [dict] that is iterated ([duplicates]) is an association list in
      insertion order, with one entry per key.
    - [str] comparison is the lexicographic order on code points, which on
      UTF-8 encoded text is the lexicographic order on bytes: [String.leb].
    - Exceptions are the [Raise] results of type [result].
    - [print], the calls to the Drive service and what they answer live in a
      state-and-error monad over [World]. *)

From Stdlib Require Import String Ascii.
From stdpp Require Import base option list gmap strings sorting.

Local Open Scope string_scope.
Local Open Scope list_scope.

(** ** Exceptions *)

Inductive exn : Type :=
| KeyError (key : string)
| IndexError
| HttpError
| ValueError
| OSError
| RefreshError
| EOFError.

Inductive result (A : Type) : Type :=
| Ok (a : A)
| Raise (e : exn).

Arguments Ok {A} a.
Arguments Raise {A} e.

#[global] Instance exn_eq_dec : EqDecision exn.
Proof. solve_decision. Defined.

#[global] Instance result_eq_dec {A} `{EqDecision A} : EqDecision (result A).
Proof. solve_decision. Defined.

(** ** File records *)

Abbreviation FileRecord := (gmap string string).

(** [d[k]]: raises [KeyError] when the key is absent. *)
Definition getitem (d : FileRecord) (k : string) : result string :=
  match d !! k with
  | Some v => Ok v
  | None => Raise (KeyError k)
  end.

(** [d.get(k, dflt)] *)
Definition get (d : FileRecord) (k dflt : string) : string :=
  default dflt (d !! k).

(** The sort key of line 134: [lambda x: x.get('modifiedTime', '')]. *)
Definition mtime_key (x : FileRecord) : string := get x "modifiedTime" "".

(** ** The order on [str] *)

Definition str_le (a b : string) : Prop := String.leb a b = true.
Definition str_lt (a b : string) : Prop := String.ltb a b = true.

(** ** Dictionaries in insertion order

    [duplicates] is iterated with [.items()], so the order of its keys is
    observable: an association list with one entry per key, new keys at the
    end, an updated key staying in place. *)

Section dict.
Context {V : Type}.

(** [d.get(k)] as an option; [k in d] is [dict_contains]. *)
Fixpoint dict_get (d : list (string * V)) (k : string) : option V :=
  match d with
  | [] => None
  | (k', v) :: d' => if decide (k' = k) then Some v else dict_get d' k
  end.

Definition dict_contains (d : list (string * V)) (k : string) : bool :=
  match dict_get d k with Some _ => true | None => false end.

(** [d[k] = v] *)
Fixpoint dict_set (d : list (string * V)) (k : string) (v : V) : list (string * V) :=
  match d with
  | [] => [(k, v)]
  | (k', v') :: d' =>
      if decide (k' = k) then (k', v) :: d' else (k', v') :: dict_set d' k v
  end.

(** [d[k]] *)
Definition dict_getitem (d : list (string * V)) (k : string) : result V :=
  match dict_get d k with
  | Some v => Ok v
  | None => Raise (KeyError k)
  end.
End dict.

Abbreviation Buckets := (list (string * list FileRecord)).

(** ** [find_duplicates] *)

(** One iteration of the loop of lines 87-91. [duplicates[name].append(file)]
    updates the list stored under [name] where it stands. *)
Definition group_step (duplicates : Buckets) (file : FileRecord) : result Buckets :=
  match getitem file "name" with
  | Raise e => Raise e
  | Ok name =>
      let duplicates :=
        if negb (dict_contains duplicates name) then dict_set duplicates name []
        else duplicates in
      match dict_getitem duplicates name with
      | Raise e => Raise e
      | Ok files_list => Ok (dict_set duplicates name (files_list ++ [file]))
      end
  end.

(** The loop of lines 87-91, started from the dictionary built so far. *)
Fixpoint group_loop (files : list FileRecord) (duplicates : Buckets) : result Buckets :=
  match files with
  | [] => Ok duplicates
  | file :: rest =>
      match group_step duplicates file with
      | Raise e => Raise e
      | Ok duplicates' => group_loop rest duplicates'
      end
  end.

(** Lines 85-91: the grouping step, every name with its bucket. *)
Definition group_by_name (files : list FileRecord) : result Buckets :=
  group_loop files [].

(** Line 94: the comprehension keeping the names with several files. *)
Definition filter_multiple (duplicates : Buckets) : Buckets :=
  filter (fun item => 1 < length item.2) duplicates.

Definition find_duplicates (files : list FileRecord) : result Buckets :=
  match group_by_name files with
  | Raise e => Raise e
  | Ok duplicates => Ok (filter_multiple duplicates)
  end.

(** ** [list.sort(key=..., reverse=True)]

    Python's sort is stable, also with [reverse=True]: elements whose keys
    compare equal keep their relative order.  A stable sort has one possible
    result ([stable_sort_unique] below), here computed by insertion: [x] is
    put in front of the first element whose key is not greater than its own. *)

Section sort.
Context {A : Type} (key : A -> string).

Fixpoint insert_desc (x : A) (l : list A) : list A :=
  match l with
  | [] => [x]
  | y :: l' =>
      if String.ltb (key x) (key y) then y :: insert_desc x l' else x :: y :: l'
  end.

Definition sort_desc (l : list A) : list A := foldr insert_desc [] l.
End sort.

(** ** The keep-and-delete choice of lines 134-138 *)

Record Plan : Type := mkPlan {
  plan_name : string;
  keep : FileRecord;
  to_delete : list FileRecord
}.

(** [files_list.sort(...)], [keep = files_list[0]], [to_delete = files_list[1:]] *)
Definition plan_group (name : string) (files_list : list FileRecord) : result Plan :=
  match sort_desc mtime_key files_list with
  | [] => Raise IndexError
  | keep :: to_delete => Ok (mkPlan name keep to_delete)
  end.

(** Every duplicate group with its choice, in the order of [duplicates.items()]. *)
Fixpoint plan_groups (duplicates : Buckets) : result (list Plan) :=
  match duplicates with
  | [] => Ok []
  | (name, files_list) :: rest =>
      match plan_group name files_list with
      | Raise e => Raise e
      | Ok p =>
          match plan_groups rest with
          | Raise e => Raise e
          | Ok ps => Ok (p :: ps)
          end
      end
  end.

Definition build_plan (files : list FileRecord) : result (list Plan) :=
  match find_duplicates files with
  | Raise e => Raise e
  | Ok duplicates => plan_groups duplicates
  end.

(** ** The Drive service and the console *)

(** What [files().list(...).execute()] answers, page after page: a page
    carries its [files] field when it has one, a [nextPageToken] exactly when
    another page follows, and a request may fail with [HttpError].  The
    service serves finitely many pages. *)
Inductive listing : Type :=
| LastPage (files : option (list FileRecord))
| NextPage (files : option (list FileRecord)) (rest : listing)
| ListingHttpError.

(** What [files().delete(fileId=...).execute()] does: return, or raise
    [HttpError]. *)
Inductive outcome : Type :=
| Succeeds
| RaisesHttpError.

#[global] Instance outcome_eq_dec : EqDecision outcome.
Proof. solve_decision. Defined.

(** A service with state [G]: the listing of a folder and the effect and
    answer of a delete request. *)
Class Drive (G : Type) : Type := {
  drive_list : G -> string -> listing;
  drive_delete : G -> string -> outcome * G
}.

(** The lines the script prints, each with the values its f-string shows. *)
Inductive line : Type :=
| LRule
| LBangs
| LTitle
| LCredentialsNotFound
| LPleaseDownload
| LErrorListing
| LAuthFailed
| LAuthSuccessful
| LTargetFolder (folder_id : string)
| LDryRunNotice
| LUseDeleteFlag
| LWarning
| LBackups
| LPrompt
| LCancelled
| LCompleted
| LScanning (folder_id : string)
| LFoundFiles (n : nat)
| LNoDuplicates
| LFoundDuplicates (n : nat)
| LCopies (name : string) (n : nat)
| LKeeping (id modified : string)
| LWouldDelete (id modified : string)
| LDeleting (id modified : string)
| LDeleted (name id : string)
| LFailedToDelete (name : string)
| LSummary
| LTotalScanned (n : nat)
| LFilesWithDuplicates (n : nat)
| LFilesToDelete (n : nat)
| LDryRunMode
| LRunWithDelete
| LSuccessfullyRemoved (n : nat).

#[global] Instance line_eq_dec : EqDecision line.
Proof. solve_decision. Defined.

(** The world a run acts on: the service, what was printed so far, and the
    delete requests sent so far with what the service answered. *)
Record World (G : Type) : Type := mkWorld {
  drive : G;
  stdout : list line;
  delete_calls : list (string * outcome)
}.

Arguments mkWorld {G} _ _ _.
Arguments drive {G} _.
Arguments stdout {G} _.
Arguments delete_calls {G} _.

(** State and exceptions: an exception keeps what was done before it. *)
Definition M (G A : Type) : Type := World G -> result A * World G.

Definition ret {G A} (a : A) : M G A := fun w => (Ok a, w).

Definition bind {G A B} (m : M G A) (k : A -> M G B) : M G B :=
  fun w =>
    match m w with
    | (Ok a, w') => k a w'
    | (Raise e, w') => (Raise e, w')
    end.

Definition lift {G A} (r : result A) : M G A := fun w => (r, w).

Definition print {G} (l : line) : M G unit :=
  fun w => (Ok tt, mkWorld (drive w) (stdout w ++ [l]) (delete_calls w)).

Declare Scope run_scope.
Delimit Scope run_scope with run.
Notation "x <- m ;; k" := (bind m (fun x => k))
  (at level 100, m at next level, right associativity) : run_scope.
Notation "m ;;; k" := (bind m (fun _ => k))
  (at level 100, right associativity) : run_scope.
Local Open Scope run_scope.

Section run.
Context {G : Type} `{Drive G}.

(** [files().delete(fileId=file_id).execute()], recorded. *)
Definition request_delete (file_id : string) : M G outcome :=
  fun w =>
    let '(o, g) := drive_delete (drive w) file_id in
    (Ok o, mkWorld g (stdout w) (delete_calls w ++ [(file_id, o)])).

(** Lines 97-105. *)
Definition delete_file (file_id file_name : string) : M G bool :=
  o <- request_delete file_id ;;
  match o with
  | Succeeds => print (LDeleted file_name file_id) ;;; ret true
  | RaisesHttpError => print (LFailedToDelete file_name) ;;; ret false
  end.

(** The [while True] loop of lines 62-75 over the pages served. *)
Fixpoint fetch_pages (pages : listing) (results : list FileRecord)
  : result (list FileRecord) :=
  match pages with
  | LastPage files => Ok (results ++ default [] files)
  | NextPage files rest => fetch_pages rest (results ++ default [] files)
  | ListingHttpError => Raise HttpError
  end.

(** Lines 55-81. *)
Definition list_files_in_folder (folder_id : string) : M G (list FileRecord) :=
  fun w =>
    match fetch_pages (drive_list (drive w) folder_id) [] with
    | Ok results => (Ok results, w)
    | Raise HttpError => (print LErrorListing ;;; ret []) w
    | Raise e => (Raise e, w)
    end.

(** The loop of lines 142-148; it returns [total_to_delete]. *)
Fixpoint delete_loop (dry_run : bool) (name : string)
    (to_delete : list FileRecord) (total_to_delete : nat) : M G nat :=
  match to_delete with
  | [] => ret total_to_delete
  | file :: rest =>
      let total_to_delete := S total_to_delete in
      id <- lift (getitem file "id") ;;
      (if dry_run then
         print (LWouldDelete id (get file "modifiedTime" "N/A"))
       else
         print (LDeleting id (get file "modifiedTime" "N/A")) ;;;
         _ <- delete_file id name ;;
         ret tt) ;;;
      delete_loop dry_run name rest total_to_delete
  end.

(** The loop of lines 130-148. *)
Fixpoint groups_loop (dry_run : bool) (duplicates : Buckets)
    (total_to_delete : nat) : M G nat :=
  match duplicates with
  | [] => ret total_to_delete
  | (name, files_list) :: rest =>
      print (LCopies name (length files_list)) ;;;
      p <- lift (plan_group name files_list) ;;
      id <- lift (getitem (keep p) "id") ;;
      print (LKeeping id (get (keep p) "modifiedTime" "N/A")) ;;;
      total_to_delete <- delete_loop dry_run name (to_delete p) total_to_delete ;;
      groups_loop dry_run rest total_to_delete
  end.

(** Lines 107-160. *)
Definition cleanup_duplicates (folder_id : string) (dry_run : bool) : M G unit :=
  print (LScanning folder_id) ;;;
  files <- list_files_in_folder folder_id ;;
  print (LFoundFiles (length files)) ;;;
  duplicates <- lift (find_duplicates files) ;;
  match duplicates with
  | [] => print LNoDuplicates
  | _ =>
      print (LFoundDuplicates (length duplicates)) ;;;
      total_to_delete <- groups_loop dry_run duplicates 0 ;;
      print LRule ;;;
      print LSummary ;;;
      print (LTotalScanned (length files)) ;;;
      print (LFilesWithDuplicates (length duplicates)) ;;;
      print (LFilesToDelete total_to_delete) ;;;
      if dry_run then
        print LDryRunMode ;;; print LRunWithDelete
      else
        print (LSuccessfullyRemoved total_to_delete)
  end.
End run.

(** ** [authenticate] and [main] *)

(** The command line after [argparse]. *)
Record Args : Type := mkArgs {
  arg_folder_id : string;
  arg_delete : bool;
  arg_token : string
}.

(** A [Credentials] object as [authenticate] looks at it: [creds.valid],
    [creds.expired], and whether [creds.refresh_token] is set. *)
Record Creds : Type := mkCreds {
  creds_valid : bool;
  creds_expired : bool;
  creds_refresh_token : bool
}.

(** What the script finds on the machine it runs on.  Every call that leaves
    the script returns or raises, as the machine decides:
    - [os.path.exists(path)];
    - [Credentials.from_authorized_user_file(path, SCOPES)] (line 33), which
      raises [ValueError] on a file that does not hold a stored token;
    - [creds.refresh(Request())] (line 37);
    - [InstalledAppFlow.from_client_secrets_file(...)] followed by
      [flow.run_local_server(port=0)] (lines 44-46);
    - writing the token file (lines 48-49);
    - [build('drive', 'v3', credentials=creds)] (line 52);
    - [input(...)] (line 199), which returns the line typed or raises
      [EOFError] when the input is at its end. *)
Record Host : Type := mkHost {
  path_exists : string -> bool;
  from_authorized_user_file : string -> result Creds;
  creds_refresh : result unit;
  run_local_server : result Creds;
  write_token_file : string -> result unit;
  build_service : result unit;
  typed : result string
}.

(** The truth value of an object that may be [None]. *)
Definition truthy {A} (o : option A) : bool :=
  match o with Some _ => true | None => false end.

Section script.
Context {G : Type} `{Drive G}.

(** Lines 28-53.  [store] is the [with open(...)] of lines 48-49 with what
    follows it, [finish] lines 51-53. *)
Definition authenticate (host : Host) (token_file : string) : M G bool :=
  creds <- (if path_exists host token_file then
              creds <- lift (from_authorized_user_file host token_file) ;;
              ret (Some creds)
            else ret None) ;;
  let finish : M G bool := lift (build_service host) ;;; ret true in
  let store : M G bool := lift (write_token_file host token_file) ;;; finish in
  if negb (truthy creds) || negb (from_option creds_valid false creds) then
    if truthy creds && from_option creds_expired false creds
       && from_option creds_refresh_token false creds then
      lift (creds_refresh host) ;;; store
    else if negb (path_exists host "credentials.json") then
      print LCredentialsNotFound ;;; print LPleaseDownload ;;; ret false
    else
      lift (run_local_server host) ;;; store
  else
    finish.

(** Lines 162-208. *)
Definition main (args : Args) (host : Host) : M G unit :=
  print LRule ;;; print LTitle ;;; print LRule ;;;
  authenticated <- authenticate host (arg_token args) ;;
  if negb authenticated then
    print LAuthFailed
  else
    print LAuthSuccessful ;;;
    print (LTargetFolder (arg_folder_id args)) ;;;
    (if negb (arg_delete args) then print LDryRunNotice ;;; print LUseDeleteFlag
     else ret tt) ;;;
    let run :=
      cleanup_duplicates (arg_folder_id args) (negb (arg_delete args)) ;;;
      print LRule ;;; print LCompleted ;;; print LRule in
    if arg_delete args then
      print LBangs ;;; print LWarning ;;; print LBackups ;;; print LBangs ;;;
      print LPrompt ;;;
      confirm <- lift (typed host) ;;
      if negb (String.eqb confirm "YES") then print LCancelled
      else run
    else run.

(** The status the interpreter exits with after [main()]: 0 when it
    returns, 1 when an exception reaches the top level. *)
Definition exit_status (args : Args) (host : Host) (w : World G) : nat :=
  match fst (main args host w) with
  | Ok _ => 0
  | Raise _ => 1
  end.
End script.

(** ** Services to run the script against *)

(** A service that serves a fixed listing in one page and answers the
    successive delete requests from a script, succeeding once it is used up. *)
Record Scripted : Type := mkScripted {
  served : list FileRecord;
  answers : list outcome
}.

Definition scripted_delete (g : Scripted) (file_id : string) : outcome * Scripted :=
  match answers g with
  | [] => (Succeeds, g)
  | o :: rest => (o, mkScripted (served g) rest)
  end.

#[global] Instance scripted_drive : Drive Scripted := {
  drive_list g _ := LastPage (Some (served g));
  drive_delete := scripted_delete
}.

(** A folder that holds the listed records: a delete request removes the
    records with that id, and fails when there is none. *)
Definition folder_delete (store : list FileRecord) (file_id : string)
  : outcome * list FileRecord :=
  if decide (Exists (fun f => f !! "id" = Some file_id) store)
  then (Succeeds, filter (fun f => f !! "id" ≠ Some file_id) store)
  else (RaisesHttpError, store).

#[global] Instance folder_drive : Drive (list FileRecord) := {
  drive_list store _ := LastPage (Some store);
  drive_delete := folder_delete
}.

Definition start {G} (g : G) : World G := mkWorld g [] [].

(** Sample records. *)
Definition file_record (id name modified : string) : FileRecord :=
  <["id" := id]> (<["name" := name]> (<["modifiedTime" := modified]> ∅)).

Definition untimed_record (id name : string) : FileRecord :=
  <["id" := id]> (<["name" := name]> ∅).

(** ** Notions used in the statements *)

(** The record carries the name [n]. *)
Definition named (n : string) (f : FileRecord) : Prop := f !! "name" = Some n.

#[global] Instance named_dec n f : Decision (named n f).
Proof. unfold named. apply _. Defined.

(** The files stored under [n], none when the key is absent. *)
Definition bucket (d : Buckets) (n : string) : list FileRecord :=
  default [] (dict_get d n).

Definition has_field (k : string) (f : FileRecord) : Prop := is_Some (f !! k).

#[global] Instance has_field_dec k f : Decision (has_field k f).
Proof. unfold has_field. apply _. Defined.

(** The records of the examples: two copies of [x.pdf] and one [y.pdf];
    two copies of [z.pdf] with the same time; a record without a name. *)
Definition sample_A : FileRecord := file_record "A" "x.pdf" "2024-01-02".
Definition sample_B : FileRecord := file_record "B" "x.pdf" "2024-01-05".
Definition sample_C : FileRecord := file_record "C" "y.pdf" "2024-01-01".
Definition sample_X : FileRecord := file_record "X" "z.pdf" "2024-01-01".
Definition sample_Y : FileRecord := file_record "Y" "z.pdf" "2024-01-01".

(** An older copy of [z.pdf]. *)
Definition sample_W : FileRecord := file_record "W" "z.pdf" "2023-12-31".
Definition sample_nameless : FileRecord := <["id" := "N"]> ∅.

(** [x] may stand before [y] in a list sorted newest first. *)
Definition not_older {A} (key : A -> string) (x y : A) : Prop :=
  str_le (key y) (key x).

(** Sorted in descending order of the key. *)
Definition descending {A} (key : A -> string) (l : list A) : Prop :=
  StronglySorted (not_older key) l.

(** [l'] holds the elements of each key in the order they have in [l]. *)
Definition same_order_per_key {A} (key : A -> string) (l l' : list A) : Prop :=
  forall k, filter (fun x => key x = k) l' = filter (fun x => key x = k) l.

(** The files [list_files_in_folder] returns for a folder: the pages served,
    flattened, and nothing when a request fails. *)
Definition listed_files {G} `{Drive G} (g : G) (folder_id : string) : list FileRecord :=
  match fetch_pages (drive_list g folder_id) [] with
  | Ok results => results
  | Raise _ => []
  end.

(** The ids of the records that carry one. *)
Definition file_ids (l : list FileRecord) : list string :=
  omap (fun f => f !! "id") l.

(** The delete records of all groups, in the order the loops visit them. *)
Definition planned_deletions (plans : list Plan) : list FileRecord :=
  concat (to_delete <$> plans).

(** A computation that sends no delete request and leaves the service as it
    is, whatever it returns or raises. *)
Definition quiet {G A} (m : M G A) : Prop :=
  forall w, drive (m w).2 = drive w /\ delete_calls (m w).2 = delete_calls w.

(** Two more copies of [x.pdf], for a group with three delete records. *)
Definition sample_D : FileRecord := file_record "D" "x.pdf" "2024-01-03".
Definition sample_E : FileRecord := file_record "E" "x.pdf" "2024-01-04".

(** A folder with four copies of [x.pdf] whose service fails on the second
    delete request. *)
Definition failing_second : World Scripted :=
  start (mkScripted [sample_A; sample_B; sample_D; sample_E]
                    [Succeeds; RaisesHttpError; Succeeds]).


(** A machine with a valid token, where [YES] is typed at the prompt. *)
Definition ready_host : Host :=
  mkHost (fun _ => true) (fun _ => Ok (mkCreds true false true)) (Ok tt)
         (Ok (mkCreds true false true)) (fun _ => Ok tt) (Ok tt) (Ok "YES").

(** The same machine with [yes] typed at the prompt, and with the input at
    its end. *)
Definition hesitant_host : Host :=
  mkHost (fun _ => true) (fun _ => Ok (mkCreds true false true)) (Ok tt)
         (Ok (mkCreds true false true)) (fun _ => Ok tt) (Ok tt) (Ok "yes").

Definition closed_input_host : Host :=
  mkHost (fun _ => true) (fun _ => Ok (mkCreds true false true)) (Ok tt)
         (Ok (mkCreds true false true)) (fun _ => Ok tt) (Ok tt) (Raise EOFError).

(** A machine whose token file does not hold a stored token, without
    [credentials.json]. *)
Definition garbled_token_host : Host :=
  mkHost (fun path => String.eqb path "token.json") (fun _ => Raise ValueError)
         (Ok tt) (Raise OSError) (fun _ => Ok tt) (Ok tt) (Ok "YES").

(** A machine whose stored token has expired and cannot be refreshed,
    without [credentials.json]. *)
Definition stale_token_host : Host :=
  mkHost (fun path => String.eqb path "token.json")
         (fun _ => Ok (mkCreds false true false))
         (Ok tt) (Raise OSError) (fun _ => Ok tt) (Ok tt) (Ok "YES").

#[global] Instance Plan_eq_dec : EqDecision Plan.
Proof. solve_decision. Defined.

(** ** [find_duplicates] on list objects

    Python lists are objects: [files] is a reference that the caller keeps,
    and the buckets are new lists that the dictionary refers to and that
    [append] updates in place.  Here the lists live in a heap, the loop reads
    the list behind [files] afresh at every step, as a Python iterator over a
    list does, and fuel bounds the number of steps. *)

Abbreviation Heap := (gmap nat (list FileRecord)).

(** A new list object. *)
Definition alloc (h : Heap) (l : list FileRecord) : nat * Heap :=
  let r := fresh (dom h) in (r, <[r := l]> h).

(** [r.append(file)] *)
Definition heap_append (h : Heap) (r : nat) (file : FileRecord) : Heap :=
  alter (fun l => l ++ [file]) r h.

(** The list a reference stands for. *)
Definition deref (h : Heap) (r : nat) : list FileRecord := default [] (h !! r).

Definition obj_group_step (duplicates : list (string * nat)) (h : Heap)
    (file : FileRecord) : result (list (string * nat) * Heap) :=
  match getitem file "name" with
  | Raise e => Raise e
  | Ok name =>
      let '(duplicates, h) :=
        if negb (dict_contains duplicates name)
        then let '(r, h) := alloc h [] in (dict_set duplicates name r, h)
        else (duplicates, h) in
      match dict_getitem duplicates name with
      | Raise e => Raise e
      | Ok r => Ok (duplicates, heap_append h r file)
      end
  end.

(** The loop of lines 87-91 from position [i] of the list behind [files];
    [None] when the fuel runs out. *)
Fixpoint obj_group_loop (fuel : nat) (files : nat) (i : nat)
    (duplicates : list (string * nat)) (h : Heap)
  : option (result (list (string * nat)) * Heap) :=
  match fuel with
  | 0 => None
  | S fuel =>
      match deref h files !! i with
      | None => Some (Ok duplicates, h)
      | Some file =>
          match obj_group_step duplicates h file with
          | Raise e => Some (Raise e, h)
          | Ok (duplicates, h) => obj_group_loop fuel files (S i) duplicates h
          end
      end
  end.

(** Line 94: a new dictionary that refers to the same list objects. *)
Definition obj_filter_multiple (duplicates : list (string * nat)) (h : Heap)
  : list (string * nat) :=
  filter (fun item => 1 < length (deref h item.2)) duplicates.

Definition obj_find_duplicates (fuel : nat) (files : nat) (h : Heap)
  : option (result (list (string * nat)) * Heap) :=
  match obj_group_loop fuel files 0 [] h with
  | None => None
  | Some (Raise e, h) => Some (Raise e, h)
  | Some (Ok duplicates, h) => Some (Ok (obj_filter_multiple duplicates h), h)
  end.

(** The dictionary of lists that a dictionary of references stands for. *)
Definition deref_all (h : Heap) (d : list (string * nat)) : Buckets :=
  (fun item => (item.1, deref h item.2)) <$> d.

(** A heap holding the sample listing as object 0 and another list, not
    passed to [find_duplicates], as object 1. *)
Definition sample_heap : Heap :=
  <[0 := [sample_A; sample_B; sample_C]]> (<[1 := [sample_X]]> ∅).

(** The service after a sequence of delete requests. *)
Definition after_requests {G} `{Drive G} (g : G) (ids : list string) : G :=
  foldl (fun g id => (drive_delete g id).2) g ids.

(** The records of a folder whose id is none of [ids]. *)
Definition survivors (ids : list string) (store : list FileRecord) : list FileRecord :=
  filter (fun f => f !! "id" ∉ (Some <$> ids)) store.

(** ** Notions used for the listing and the console *)

(** Some request of the listing fails. *)
Fixpoint listing_fails (pages : listing) : bool :=
  match pages with
  | LastPage _ => false
  | NextPage _ rest => listing_fails rest
  | ListingHttpError => true
  end.

(** The files of all pages served, in the order served; a page without a
    [files] field has none. *)
Fixpoint listing_files (pages : listing) : list FileRecord :=
  match pages with
  | LastPage files => default [] files
  | NextPage files rest => default [] files ++ listing_files rest
  | ListingHttpError => []
  end.

(** The ids a dry run says it would delete. *)
Definition would_delete_ids (out : list line) : list string :=
  omap (fun l => match l with LWouldDelete id _ => Some id | _ => None end) out.

(** What the lines of [delete_file] say of the requests, in order. *)
Definition reported_outcomes (out : list line) : list outcome :=
  omap (fun l => match l with
                 | LDeleted _ _ => Some Succeeds
                 | LFailedToDelete _ => Some RaisesHttpError
                 | _ => None
                 end) out.

(** A service that serves the pages it is given and accepts every delete
    request. *)
#[global] Instance paged_drive : Drive listing := {
  drive_list pages _ := pages;
  drive_delete pages _ := (Succeeds, pages)
}.

(** Three pages, the second without a [files] field; and a listing whose
    second request fails. *)
Definition three_pages : listing :=
  NextPage (Some [sample_A; sample_B]) (NextPage None (LastPage (Some [sample_C]))).

Definition broken_listing : listing :=
  NextPage (Some [sample_A; sample_B]) ListingHttpError.

(** A copy of [x.pdf] without an id, and a folder that holds it between
    newer and older copies. *)
Definition sample_idless : FileRecord :=
  <["name" := "x.pdf"]> (<["modifiedTime" := "2024-01-03"]> ∅).

Definition folder_with_idless : World Scripted :=
  start (mkScripted [sample_A; sample_B; sample_idless; sample_E] []).

(** * Token generation: model of [generate_token.py]

    The script reads [credentials.json], stores it base64-encoded, runs the
    OAuth flow, stores the token base64-encoded and checks the granted
    scopes.  Files are a finite map from paths to the bytes they hold; a
    [str] is the string of its UTF-8 bytes, so [.encode('utf-8')] leaves the
    string as it is, and so does [.decode('utf-8')] on ASCII. *)

(** ** Reading a file as text

    [open(path, 'r')] opens the file in text mode: [f.read()] decodes the
    bytes of the file in the encoding of the locale, which raises
    [UnicodeDecodeError] on bytes that are not valid in it, and then turns
    every line ending, [\r\n] or a lone [\r], into [\n].  The decoder
    belongs to the machine: it gives the text of the bytes it can decode. *)

Definition CR : ascii := "013"%char.
Definition LF : ascii := "010"%char.

Fixpoint universal_newlines (text : string) : string :=
  match text with
  | EmptyString => EmptyString
  | String c rest =>
      if Ascii.eqb c CR then
        match rest with
        | EmptyString => String LF EmptyString
        | String c' rest' =>
            if Ascii.eqb c' LF then String LF (universal_newlines rest')
            else String LF (universal_newlines rest)
        end
      else String c (universal_newlines rest)
  end.

Definition read_text (decode : string -> option string) (stored : string)
  : option string :=
  universal_newlines <$> decode stored.

(** ** [base64.b64encode]

    The standard alphabet of RFC 4648: three bytes give four digits of six
    bits, and a last group of one or two bytes is padded with [=]. *)

Definition b64_alphabet : string :=
  "ABCDEFGHIJKLMNOPQRSTUVWXYZabcdefghijklmnopqrstuvwxyz0123456789+/".

Definition b64_pad : ascii := "="%char.

Definition b64_digit (n : N) : ascii :=
  default b64_pad (String.get (N.to_nat n) b64_alphabet).

Fixpoint b64_groups (bytes : list N) : list ascii :=
  match bytes with
  | [] => []
  | [a] => [b64_digit (a / 4); b64_digit (a mod 4 * 16); b64_pad; b64_pad]
  | [a; b] =>
      [b64_digit (a / 4); b64_digit (a mod 4 * 16 + b / 16);
       b64_digit (b mod 16 * 4); b64_pad]
  | a :: b :: c :: rest =>
      b64_digit (a / 4) :: b64_digit (a mod 4 * 16 + b / 16)
      :: b64_digit (b mod 16 * 4 + c / 64) :: b64_digit (c mod 64)
      :: b64_groups rest
  end%N.

(** [base64.b64encode(data.encode('utf-8')).decode('utf-8')] *)
Definition b64encode (data : string) : string :=
  string_of_list_ascii (b64_groups (N_of_ascii <$> list_ascii_of_string data)).

(** The way back, [base64.b64decode], which the script does not call: it is
    here to say that the encoded text still holds the data. *)
Definition b64_value (c : ascii) : N :=
  N.of_nat (default 0 (String.index 0 (String c EmptyString) b64_alphabet)).

Fixpoint b64_ungroup (digits : list ascii) : list N :=
  match digits with
  | c1 :: c2 :: c3 :: c4 :: rest =>
      let s1 := b64_value c1 in
      let s2 := b64_value c2 in
      let s3 := b64_value c3 in
      let s4 := b64_value c4 in
      if decide (c3 = b64_pad) then [s1 * 4 + s2 / 16]
      else if decide (c4 = b64_pad) then [s1 * 4 + s2 / 16; s2 mod 16 * 16 + s3 / 4]
      else (s1 * 4 + s2 / 16) :: (s2 mod 16 * 16 + s3 / 4) :: (s3 mod 4 * 64 + s4)
           :: b64_ungroup rest
  | _ => []
  end%N.

Definition b64decode (text : string) : string :=
  string_of_list_ascii (ascii_of_N <$> b64_ungroup (list_ascii_of_string text)).

(** ** The script *)

(** The scopes the script asks for (lines 10-15). *)
Definition SCOPES : list string :=
  ["https://www.googleapis.com/auth/gmail.readonly";
   "https://www.googleapis.com/auth/gmail.send";
   "https://www.googleapis.com/auth/drive";
   "https://www.googleapis.com/auth/spreadsheets"].

(** What [flow.run_local_server] returns: the token as [creds.to_json()]
    gives it, and [creds.scopes]. *)
Record Granted : Type := mkGranted {
  token_json : string;
  granted_scopes : list string
}.

Inductive token_exn : Type :=
| FileNotFoundError (path : string)
| UnicodeDecodeError
| FlowError.

(** How the script ends: at its last line, or with an uncaught exception. *)
Inductive script_end : Type :=
| Completed
| Uncaught (e : token_exn).

Inductive token_line : Type :=
| TCredentialsSaved
| TTokenSaved
| TScopes (scopes : list string)
| TGmailSendIncluded
| TGmailSendMissing
| TFilesGenerated
| TCredentialsFile
| TTokenFile.

#[global] Instance token_exn_eq_dec : EqDecision token_exn.
Proof. solve_decision. Defined.

#[global] Instance script_end_eq_dec : EqDecision script_end.
Proof. solve_decision. Defined.

#[global] Instance token_line_eq_dec : EqDecision token_line.
Proof. solve_decision. Defined.

(** The script, on the files [fs], with the decoder [decode] of the locale
    and the OAuth flow [run_flow], which is given the client secrets file
    and the scopes and returns the credentials or fails.  It returns how it
    ends, the files and the lines printed.

    The two files are written in text mode as well; what is written is
    base64 text, which has no line ending and only ASCII letters, digits,
    [+], [/] and [=], so the bytes of the file are the text. *)
Definition generate_token
    (decode : string -> option string)
    (run_flow : string -> list string -> option Granted)
    (fs : gmap string string)
  : script_end * gmap string string * list token_line :=
  match fs !! "credentials.json" with
  | None => (Uncaught (FileNotFoundError "credentials.json"), fs, [])
  | Some stored =>
      match read_text decode stored with
      | None => (Uncaught UnicodeDecodeError, fs, [])
      | Some credentials_data =>
          let credentials_encoded := b64encode credentials_data in
          let fs := <["credentials_encoded.txt" := credentials_encoded]> fs in
          let out := [TCredentialsSaved] in
          match fs !! "credentials.json" with
          | None => (Uncaught (FileNotFoundError "credentials.json"), fs, out)
          | Some client_secrets =>
              match run_flow client_secrets SCOPES with
              | None => (Uncaught FlowError, fs, out)
              | Some creds =>
                  let token_encoded := b64encode (token_json creds) in
                  let fs := <["token_encoded.txt" := token_encoded]> fs in
                  let out := out ++ [TTokenSaved; TScopes (granted_scopes creds)] in
                  let out :=
                    out ++ [if decide ("https://www.googleapis.com/auth/gmail.send"
                                       ∈ granted_scopes creds)
                            then TGmailSendIncluded else TGmailSendMissing] in
                  (Completed, fs,
                   out ++ [TFilesGenerated; TCredentialsFile; TTokenFile])
              end
          end
      end
  end.

(** Sample files and flows. *)
Definition sample_secrets : string := "{installed: {client_id: abc}}".

Definition sample_files : gmap string string :=
  <["credentials.json" := sample_secrets]> (<["token_encoded.txt" := "stale"]> ∅).

(** Client secrets of two lines, saved with [\r\n] line endings, and the
    text Python reads from them. *)
Definition crlf_secrets : string :=
  "{installed:" ++ String CR (String LF " {client_id: abc}}").

Definition crlf_secrets_read : string :=
  "{installed:" ++ String LF " {client_id: abc}}".

Definition crlf_files : gmap string string :=
  <["credentials.json" := crlf_secrets]> (<["token_encoded.txt" := "stale"]> ∅).

(** The decoder of a locale whose encoding is ASCII: bytes below 128 are
    the text, any other byte is refused. *)
Definition ascii_decode (stored : string) : option string :=
  if forallb (fun c => N.ltb (N_of_ascii c) 128) (list_ascii_of_string stored)
  then Some stored else None.

(** A file with a byte that is not ASCII. *)
Definition latin1_files : gmap string string :=
  <["credentials.json" := String "233"%char "t"]> (<["token_encoded.txt" := "stale"]> ∅).

(** A flow that grants what it is asked for, one that grants the Drive
    scope only, and one that fails. *)
Definition granting_flow (secrets : string) (scopes : list string) : option Granted :=
  Some (mkGranted "{token: t0}" scopes).

Definition drive_only_flow (secrets : string) (scopes : list string) : option Granted :=
  Some (mkGranted "{token: t0}" ["https://www.googleapis.com/auth/drive"]).

Definition failing_flow (secrets : string) (scopes : list string) : option Granted :=
  None.

(** The different elements of a list, each where it first occurs. *)
Fixpoint first_seen (names : list string) : list string :=
  match names with
  | [] => []
  | n :: rest => n :: filter (fun m => m ≠ n) (first_seen rest)
  end.

(** * Properties *)

(** ** The order on [str] *)

Lemma ascii_compare_refl (c : ascii) : Ascii.compare c c = Eq.
Proof. unfold Ascii.compare. apply N.compare_refl. Qed.

Lemma string_compare_refl (s : string) : String.compare s s = Eq.
Proof. induction s as [|c s IH]; simpl; [done|]. by rewrite ascii_compare_refl. Qed.

Lemma ascii_compare_lt_trans (a b c : ascii) :
  Ascii.compare a b = Lt -> Ascii.compare b c = Lt -> Ascii.compare a c = Lt.
Proof. unfold Ascii.compare. rewrite !N.compare_lt_iff. lia. Qed.

Lemma string_compare_lt_trans (s1 s2 s3 : string) :
  String.compare s1 s2 = Lt -> String.compare s2 s3 = Lt ->
  String.compare s1 s3 = Lt.
Proof.
  revert s2 s3. induction s1 as [|a s1 IH]; intros [|b s2] [|c s3]; simpl; try done.
  destruct (Ascii.compare a b) eqn:Hab; try done;
    destruct (Ascii.compare b c) eqn:Hbc; try done; intros H1 H2.
  - apply Ascii.compare_eq_iff in Hab, Hbc. subst.
    rewrite ascii_compare_refl. eauto.
  - apply Ascii.compare_eq_iff in Hab. subst. by rewrite Hbc.
  - apply Ascii.compare_eq_iff in Hbc. subst. by rewrite Hab.
  - by rewrite (ascii_compare_lt_trans a b c).
Qed.

Lemma str_le_refl (a : string) : str_le a a.
Proof. unfold str_le, String.leb. by rewrite string_compare_refl. Qed.

Lemma str_lt_iff_not_le (a b : string) : str_lt a b <-> ~ str_le b a.
Proof.
  unfold str_lt, str_le, String.ltb, String.leb.
  rewrite (String.compare_antisym b a).
  destruct (String.compare a b); simpl; split; intros; congruence.
Qed.

Lemma str_le_cases (a b : string) : str_le a b <-> str_lt a b \/ a = b.
Proof.
  unfold str_lt, str_le, String.ltb, String.leb. split.
  - destruct (String.compare a b) eqn:H; intros ?; try done; [right|by left].
    by apply String.compare_eq_iff.
  - intros [H| ->]; [|by rewrite string_compare_refl].
    by destruct (String.compare a b).
Qed.

Lemma str_lt_trans (a b c : string) : str_lt a b -> str_lt b c -> str_lt a c.
Proof.
  unfold str_lt, String.ltb. intros H1 H2.
  destruct (String.compare a b) eqn:Hab; try done.
  destruct (String.compare b c) eqn:Hbc; try done.
  by rewrite (string_compare_lt_trans a b c).
Qed.

Lemma str_le_trans (a b c : string) : str_le a b -> str_le b c -> str_le a c.
Proof.
  rewrite !str_le_cases. intros [H1| ->] [H2| ->]; eauto using str_lt_trans.
Qed.

Lemma str_le_antisym (a b : string) : str_le a b -> str_le b a -> a = b.
Proof. apply String.leb_antisym. Qed.

Lemma str_le_total (a b : string) : str_le a b \/ str_le b a.
Proof. apply String.leb_total. Qed.

Lemma str_le_empty (a : string) : str_le "" a.
Proof. by destruct a. Qed.

Lemma str_lt_le (a b : string) : str_lt a b -> str_le a b.
Proof. rewrite str_le_cases. eauto. Qed.

Lemma str_lt_le_trans (a b c : string) : str_lt a b -> str_le b c -> str_lt a c.
Proof. rewrite str_le_cases. intros H1 [H2| <-]; eauto using str_lt_trans. Qed.

Lemma str_lt_irrefl (a : string) : ~ str_lt a a.
Proof. rewrite str_lt_iff_not_le. intros H. apply H, str_le_refl. Qed.


(** ** Dictionaries *)

Section dict_facts.
Context {V : Type}.
Implicit Types (d : list (string * V)) (k : string) (v : V).

Lemma dict_get_set_eq d k v : dict_get (dict_set d k v) k = Some v.
Proof.
  induction d as [|[k' v'] d IH]; simpl.
  - by rewrite decide_True.
  - destruct (decide (k' = k)) as [->|Hne]; simpl.
    + by rewrite decide_True.
    + by rewrite decide_False.
Qed.

Lemma dict_get_set_ne d k k' v :
  k ≠ k' -> dict_get (dict_set d k v) k' = dict_get d k'.
Proof.
  intros Hne. induction d as [|[k0 v0] d IH]; simpl.
  - by rewrite decide_False.
  - destruct (decide (k0 = k)) as [->|Hne0]; simpl.
    + by rewrite !decide_False.
    + by rewrite IH.
Qed.

Lemma dict_get_None d k : dict_get d k = None <-> k ∉ d.*1.
Proof.
  induction d as [|[k' v'] d IH]; simpl.
  - split; [intros _; apply not_elem_of_nil | done].
  - rewrite not_elem_of_cons. destruct (decide (k' = k)) as [->|Hne].
    + split; [done | intros [? _]; done].
    + rewrite IH. split; [intros ?; split; [congruence|done] | tauto].
Qed.

Lemma dict_get_Some_elem d k v : dict_get d k = Some v -> (k, v) ∈ d.
Proof.
  induction d as [|[k' v'] d IH]; simpl; [done|].
  destruct (decide (k' = k)) as [->|Hne].
  - intros [= ->]. apply list_elem_of_here.
  - intros Hg. apply list_elem_of_further. auto.
Qed.

Lemma dict_get_elem d k v : NoDup d.*1 -> (k, v) ∈ d -> dict_get d k = Some v.
Proof.
  induction d as [|[k' v'] d IH]; simpl; intros Hnd Hin.
  - by apply elem_of_nil in Hin.
  - apply NoDup_cons in Hnd as [Hk Hnd].
    apply elem_of_cons in Hin as [[= -> ->]|Hin].
    + by rewrite decide_True.
    + destruct (decide (k' = k)) as [->|Hne]; [|by auto].
      exfalso. apply Hk. apply list_elem_of_fmap. by exists (k, v).
Qed.

Lemma dict_set_keys d k v :
  (dict_set d k v).*1 = if dict_contains d k then d.*1 else d.*1 ++ [k].
Proof.
  unfold dict_contains. induction d as [|[k' v'] d IH]; [done|].
  cbn [dict_set dict_get].
  destruct (decide (k' = k)) as [->|Hne]; [done|].
  rewrite !fmap_cons, IH. by destruct (dict_get d k).
Qed.

Lemma dict_set_fresh d k v : dict_get d k = None -> dict_set d k v = d ++ [(k, v)].
Proof.
  induction d as [|[k' v'] d IH]; simpl; [done|].
  destruct (decide (k' = k)); [done|]. intros Hg. by rewrite IH.
Qed.

Lemma dict_set_NoDup d k v : NoDup d.*1 -> NoDup (dict_set d k v).*1.
Proof.
  intros Hnd. rewrite dict_set_keys. unfold dict_contains.
  destruct (dict_get d k) eqn:Hg; [done|].
  apply NoDup_app. split_and!; [done| |apply NoDup_singleton].
  intros x Hx ->%list_elem_of_singleton. by apply dict_get_None in Hg.
Qed.
End dict_facts.

Lemma dict_set_concat (d : Buckets) k l f :
  dict_get d k = Some l ->
  concat (dict_set d k (l ++ [f])).*2 ≡ₚ concat d.*2 ++ [f].
Proof.
  induction d as [|[k' v'] d IH]; simpl; [done|].
  destruct (decide (k' = k)) as [->|Hne]; simpl.
  - intros [= ->]. rewrite <- !(assoc_L (++)). f_equiv. apply Permutation_app_comm.
  - intros Hg. rewrite IH by done. by rewrite (assoc_L (++)).
Qed.

(** ** Grouping by name *)

Lemma group_step_spec (d : Buckets) (f : FileRecord) (n : string) :
  named n f ->
  exists d', group_step d f = Ok d'
    /\ dict_get d' n = Some (bucket d n ++ [f])
    /\ (forall k, k ≠ n -> dict_get d' k = dict_get d k)
    /\ (NoDup d.*1 -> NoDup d'.*1)
    /\ concat d'.*2 ≡ₚ concat d.*2 ++ [f].
Proof.
  intros Hn. unfold group_step, getitem, bucket. rewrite Hn.
  unfold dict_contains, dict_getitem.
  destruct (dict_get d n) as [l|] eqn:Hg; simpl.
  - rewrite Hg. eexists. split; [done|]. split_and!.
    + apply dict_get_set_eq.
    + intros k Hk. by apply dict_get_set_ne.
    + apply dict_set_NoDup.
    + by apply dict_set_concat.
  - rewrite dict_get_set_eq. eexists. split; [done|]. split_and!.
    + apply dict_get_set_eq.
    + intros k Hk. by rewrite !dict_get_set_ne.
    + intros Hnd. by do 2 apply dict_set_NoDup.
    + rewrite (dict_set_concat _ n [] f) by apply dict_get_set_eq.
      rewrite (dict_set_fresh d n []) by done.
      rewrite fmap_app, concat_app. simpl. by rewrite !(right_id_L [] (++)).
Qed.

Lemma group_step_raises (d : Buckets) (f : FileRecord) :
  f !! "name" = None -> group_step d f = Raise (KeyError "name").
Proof. intros Hn. unfold group_step, getitem. by rewrite Hn. Qed.

Lemma group_loop_spec (files : list FileRecord) (d : Buckets) :
  Forall (has_field "name") files ->
  exists d', group_loop files d = Ok d'
    /\ (forall n, bucket d' n = bucket d n ++ filter (named n) files)
    /\ (forall n, is_Some (dict_get d' n) <->
                  is_Some (dict_get d n) \/ Exists (named n) files)
    /\ (NoDup d.*1 -> NoDup d'.*1)
    /\ concat d'.*2 ≡ₚ concat d.*2 ++ files.
Proof.
  intros Hall. revert d. induction Hall as [|f files [n Hn] _ IH]; intros d.
  - exists d. simpl. split_and!; try done.
    + intros n. by rewrite filter_nil, (right_id_L [] (++)).
    + intros n. rewrite Exists_nil. tauto.
    + by rewrite (right_id_L [] (++)).
  - destruct (group_step_spec d f n Hn) as (d1 & Hstep & Hget & Hother & Hnd & Hperm).
    destruct (IH d1) as (d' & Hloop & Hb & Hk & Hnd' & Hperm').
    exists d'. simpl. rewrite Hstep. split_and!; try done.
    + intros k. rewrite Hb. unfold bucket at 1.
      destruct (decide (k = n)) as [->|Hne].
      * rewrite Hget. simpl. rewrite filter_cons_True by done.
        by rewrite <- (assoc_L (++)).
      * rewrite Hother by done. fold (bucket d k).
        rewrite filter_cons_False; [done|]. unfold named. congruence.
    + intros k. rewrite Hk, Exists_cons.
      destruct (decide (k = n)) as [->|Hne].
      * rewrite Hget. split; [intros _; right; by left | intros _; left; eauto].
      * rewrite Hother by done. unfold named at 2. split; [tauto|].
        intros [?|[?|?]]; [tauto|congruence|tauto].
    + auto.
    + rewrite Hperm', Hperm. by rewrite <- (assoc_L (++)).
Qed.

Lemma group_loop_raises (files : list FileRecord) (d : Buckets) :
  Exists (fun f => f !! "name" = None) files ->
  group_loop files d = Raise (KeyError "name").
Proof.
  revert d. induction files as [|f files IH]; intros d Hex.
  - by apply Exists_nil in Hex.
  - simpl. destruct (f !! "name") as [n|] eqn:Hn.
    + destruct (group_step_spec d f n Hn) as (d1 & -> & _).
      apply IH. apply Exists_cons in Hex as [Hf|?]; [congruence|done].
    + by rewrite group_step_raises.
Qed.

Lemma filter_nonempty_Exists {A} (P : A -> Prop) `{!forall x, Decision (P x)} (l : list A) :
  filter P l ≠ [] <-> Exists P l.
Proof.
  rewrite Exists_exists. split.
  - intros Hne. destruct (filter P l) as [|x l'] eqn:Hf; [done|].
    assert (x ∈ filter P l) as [HP Hin]%list_elem_of_filter
      by (rewrite Hf; apply list_elem_of_here).
    eauto.
  - intros (x & Hin & HP) Hnil.
    assert (x ∈ filter P l) as Hx by (by apply list_elem_of_filter).
    rewrite Hnil in Hx. by apply elem_of_nil in Hx.
Qed.

(** The dictionary built by the loop: one entry per name that occurs, holding
    the records of that name in the order of the input. *)
Lemma group_by_name_spec (files : list FileRecord) :
  Forall (has_field "name") files ->
  exists d, group_by_name files = Ok d
    /\ NoDup d.*1
    /\ (forall n b, (n, b) ∈ d <-> b = filter (named n) files /\ b ≠ [])
    /\ concat d.*2 ≡ₚ files.
Proof.
  intros Hall. destruct (group_loop_spec files [] Hall) as (d & Hloop & Hb & Hk & Hnd & Hperm).
  exists d. split_and!; try done.
  - apply Hnd, NoDup_nil_2.
  - intros n b. specialize (Hb n). specialize (Hk n). unfold bucket in Hb.
    simpl in Hb, Hk. rewrite <- filter_nonempty_Exists in Hk. split.
    + intros Hin. apply dict_get_elem in Hin; [|apply Hnd, NoDup_nil_2].
      rewrite Hin in Hb, Hk. simpl in Hb. subst b. split; [done|].
      destruct Hk as [Hk _]. destruct Hk as [[? [=]]|?]; eauto.
    + intros [-> Hne]. apply dict_get_Some_elem.
      destruct (dict_get d n) as [b|] eqn:Hg; simpl in Hb; [by subst|].
      destruct Hk as [_ Hk]. destruct Hk as [? [=]]. by right.
Qed.

Lemma find_duplicates_ok (files : list FileRecord) :
  Forall (has_field "name") files ->
  exists d, group_by_name files = Ok d /\ find_duplicates files = Ok (filter_multiple d).
Proof.
  intros Hall. destruct (group_by_name_spec files Hall) as (d & Hd & _).
  exists d. unfold find_duplicates. by rewrite Hd.
Qed.

Ltac has_fields := compute_done.

Lemma concat_filter_multiple_sublist (d : Buckets) :
  concat (filter_multiple d).*2 `sublist_of` concat d.*2.
Proof.
  unfold filter_multiple. induction d as [|[n b] d IH]; [done|].
  rewrite filter_cons. cbn [fmap list_fmap concat snd]. case_decide.
  - cbn [fmap list_fmap concat snd]. by apply sublist_app.
  - by apply sublist_inserts_l.
Qed.

(** C5, as the code behaves: the loop of lines 85-91 builds a dictionary
    that partitions the input, one bucket per name with the records of that
    name in the order of the input, but line 94 drops the buckets of a
    single record before [find_duplicates] returns.  What is returned has
    one bucket per name carried by two records or more, holding the records
    of that name in the order of the input; a record is in no bucket of
    another name, and it is in the bucket of its own name exactly when that
    name is carried by two records or more. *)
Theorem find_duplicates_drops_singleton_buckets (files : list FileRecord) :
  Forall (has_field "name") files ->
  exists d dup,
    group_by_name files = Ok d
    /\ NoDup d.*1
    /\ (forall n b, (n, b) ∈ d <-> b = filter (named n) files /\ b ≠ [])
    /\ concat d.*2 ≡ₚ files
    /\ find_duplicates files = Ok dup
    /\ NoDup dup.*1
    /\ (forall n b, (n, b) ∈ dup <-> b = filter (named n) files /\ 1 < length b)
    /\ (forall f n, f ∈ files -> named n f ->
          (forall n', n' ≠ n -> f ∉ bucket dup n')
          /\ (f ∈ bucket dup n <-> 1 < length (filter (named n) files)))
    /\ concat dup.*2 ⊆+ files.
Proof.
  intros Hall. destruct (group_by_name_spec files Hall) as (d & Hd & Hnd & Hb & Hperm).
  exists d, (filter_multiple d). unfold find_duplicates. rewrite Hd.
  assert (NoDup (filter_multiple d).*1) as Hnd'.
  { eapply sublist_NoDup; [exact Hnd|]. apply fmap_sublist, sublist_filter; apply _. }
  assert (forall n b, (n, b) ∈ filter_multiple d
                      <-> b = filter (named n) files /\ 1 < length b) as Hb'.
  { intros n b. unfold filter_multiple. rewrite list_elem_of_filter, Hb. simpl.
    split; [tauto|]. intros [-> Hlen]. split_and!; try done.
    intros Hnil. rewrite Hnil in Hlen. simpl in Hlen. lia. }
  assert (forall k, bucket (filter_multiple d) k
                    = if decide (1 < length (filter (named k) files))
                      then filter (named k) files else []) as Hbucket.
  { intros k. unfold bucket.
    destruct (dict_get (filter_multiple d) k) as [b|] eqn:Hg; simpl.
    - apply dict_get_Some_elem, Hb' in Hg as [-> Hlen]. by rewrite decide_True.
    - case_decide as Hlen; [|done].
      assert ((k, filter (named k) files) ∈ filter_multiple d) as Hin by (by apply Hb').
      apply dict_get_elem in Hin; [congruence|done]. }
  split_and!; try done.
  - intros f n Hf Hn. split.
    + intros n' Hne. rewrite Hbucket. case_decide; [|apply not_elem_of_nil].
      intros [Hn' _]%list_elem_of_filter. unfold named in *. congruence.
    + rewrite Hbucket. case_decide as Hlen.
      * split; [done|]. intros _. by apply list_elem_of_filter.
      * split; [by intros ?%elem_of_nil|done].
  - rewrite <- Hperm. apply sublist_submseteq, concat_filter_multiple_sublist.
Qed.

Lemma find_duplicates_drops_singleton_buckets_witness :
  Forall (has_field "name") [sample_A; sample_B; sample_C]
  /\ exists d dup,
    group_by_name [sample_A; sample_B; sample_C] = Ok d
    /\ NoDup d.*1
    /\ (forall n b, (n, b) ∈ d <->
          b = filter (named n) [sample_A; sample_B; sample_C] /\ b ≠ [])
    /\ concat d.*2 ≡ₚ [sample_A; sample_B; sample_C]
    /\ find_duplicates [sample_A; sample_B; sample_C] = Ok dup
    /\ NoDup dup.*1
    /\ (forall n b, (n, b) ∈ dup <->
          b = filter (named n) [sample_A; sample_B; sample_C] /\ 1 < length b)
    /\ (forall f n, f ∈ [sample_A; sample_B; sample_C] -> named n f ->
          (forall n', n' ≠ n -> f ∉ bucket dup n')
          /\ (f ∈ bucket dup n
              <-> 1 < length (filter (named n) [sample_A; sample_B; sample_C])))
    /\ concat dup.*2 ⊆+ [sample_A; sample_B; sample_C].
Proof.
  split; [has_fields|].
  apply (find_duplicates_drops_singleton_buckets [sample_A; sample_B; sample_C]).
  has_fields.
Defined.

(** C5, as stated, fails: [y.pdf] has a single record, so its bucket is not
    returned and [C] is in no bucket of the result. *)
Lemma singleton_bucket_is_not_returned :
  find_duplicates [sample_A; sample_B; sample_C] = Ok [("x.pdf", [sample_A; sample_B])]
  /\ sample_C ∈ [sample_A; sample_B; sample_C]
  /\ forall n, sample_C ∉ bucket [("x.pdf", [sample_A; sample_B])] n.
Proof.
  split_and!.
  - cbv zeta. compute_done.
  - set_solver.
  - intros n. unfold bucket. cbn [dict_get]. case_decide; cbn [default].
    + intros [?%(f_equal (.!! "id"))|[?%(f_equal (.!! "id"))|?%elem_of_nil]%elem_of_cons]%elem_of_cons;
        done.
    + apply not_elem_of_nil.
Qed.

Example group_by_name_sample :
  group_by_name [sample_A; sample_B; sample_C]
  = Ok [("x.pdf", [sample_A; sample_B]); ("y.pdf", [sample_C])].
Proof. cbv zeta. compute_done. Qed.

(** C10: [find_duplicates] needs the name of every record: it returns when
    every record has a ['name'] key, and raises [KeyError('name')] as soon as
    one record lacks it. *)
Theorem find_duplicates_requires_name (files : list FileRecord) :
  (Forall (has_field "name") files -> exists dup, find_duplicates files = Ok dup)
  /\ (Exists (fun f => f !! "name" = None) files ->
      find_duplicates files = Raise (KeyError "name")).
Proof.
  split.
  - intros Hall. destruct (find_duplicates_ok files Hall) as (d & _ & ->). eauto.
  - intros Hex. unfold find_duplicates, group_by_name.
    by rewrite group_loop_raises.
Qed.

Lemma find_duplicates_requires_name_witness :
  (Forall (has_field "name") [sample_A; sample_B; sample_C]
   /\ exists dup, find_duplicates [sample_A; sample_B; sample_C] = Ok dup)
  /\ (Exists (fun f => f !! "name" = None) [sample_A; sample_nameless; sample_B]
      /\ find_duplicates [sample_A; sample_nameless; sample_B] = Raise (KeyError "name")).
Proof.
  split; split.
  - has_fields.
  - apply (find_duplicates_requires_name [sample_A; sample_B; sample_C]). has_fields.
  - compute_done.
  - apply (find_duplicates_requires_name [sample_A; sample_nameless; sample_B]).
    compute_done.
Defined.

(** ** The stable descending sort *)

Lemma str_not_lt_le (a b : string) : ~ str_lt a b -> str_le b a.
Proof.
  intros Hn. destruct (str_le_total a b) as [Hab|Hba]; [|done].
  apply str_le_cases in Hab as [?| ->]; [done | apply str_le_refl].
Qed.

Lemma filter_head_split {A} (P : A -> Prop) `{!forall x, Decision (P x)}
    (l : list A) (x : A) (t : list A) :
  filter P l = x :: t ->
  exists pre post, l = pre ++ x :: post /\ Forall (fun y => ~ P y) pre /\ P x
                   /\ filter P post = t.
Proof.
  induction l as [|y l IH]; [done|].
  destruct (decide (P y)) as [Hy|Hy].
  - rewrite filter_cons_True by done. intros [= -> <-].
    exists [], l. by split_and!.
  - rewrite filter_cons_False by done. intros Hf.
    destruct (IH Hf) as (pre & post & -> & Hpre & Hx & Hpost).
    exists (y :: pre), post. split_and!; try done. by constructor.
Qed.

Section sort_facts.
Context {A : Type} (key : A -> string).
Implicit Types (x y : A) (l : list A).

Lemma insert_desc_perm x l : insert_desc key x l ≡ₚ x :: l.
Proof.
  induction l as [|y l IH]; simpl; [done|].
  destruct (String.ltb (key x) (key y)); [|done].
  rewrite IH. apply Permutation_swap.
Qed.

Lemma sort_desc_perm l : sort_desc key l ≡ₚ l.
Proof.
  induction l as [|x l IH]; simpl; [done|].
  by rewrite insert_desc_perm, IH.
Qed.

Lemma sort_desc_length l : length (sort_desc key l) = length l.
Proof. by rewrite sort_desc_perm. Qed.

Lemma insert_desc_descending x l :
  descending key l -> descending key (insert_desc key x l).
Proof.
  unfold descending. induction 1 as [|y l Hs IH Hy]; simpl.
  - repeat constructor.
  - destruct (String.ltb (key x) (key y)) eqn:Hlt.
    + constructor; [done|]. rewrite insert_desc_perm.
      constructor; [|done]. by apply str_lt_le.
    + assert (not_older key x y) as Hxy.
      { apply str_not_lt_le. unfold str_lt. by rewrite Hlt. }
      constructor; [by constructor|]. constructor; [done|].
      eapply Forall_impl; [exact Hy|]. intros z Hz. unfold not_older in *.
      by eapply str_le_trans.
Qed.

Lemma sort_desc_descending l : descending key (sort_desc key l).
Proof.
  induction l as [|x l IH]; simpl; [constructor|].
  by apply insert_desc_descending.
Qed.

(** An inserted element only passes elements of a strictly greater key. *)
Lemma insert_desc_stable x l k :
  filter (fun z => key z = k) (insert_desc key x l)
  = filter (fun z => key z = k) (x :: l).
Proof.
  induction l as [|y l IH]; simpl; [done|].
  destruct (String.ltb (key x) (key y)) eqn:Hlt; [|done].
  assert (key x ≠ key y) as Hne.
  { intros Heq. rewrite Heq in Hlt. by apply (str_lt_irrefl (key y)). }
  destruct (decide (key x = k)) as [Hx|Hx].
  - rewrite (filter_cons_False _ y) by congruence.
    rewrite IH. rewrite !(filter_cons_True _ x) by done.
    by rewrite (filter_cons_False _ y) by congruence.
  - rewrite (filter_cons_False _ x (y :: l)) by done.
    rewrite !(filter_cons _ y). rewrite IH.
    by rewrite (filter_cons_False _ x) by done.
Qed.

Lemma sort_desc_stable l : same_order_per_key key l (sort_desc key l).
Proof.
  intros k. induction l as [|x l IH]; simpl; [done|].
  rewrite insert_desc_stable, !filter_cons. by rewrite IH.
Qed.

(** A list has one stable descending arrangement: whatever algorithm
    [list.sort] runs, its result is [sort_desc]. *)
Lemma stable_sort_unique l l1 l2 :
  descending key l1 -> same_order_per_key key l l1 ->
  descending key l2 -> same_order_per_key key l l2 ->
  l1 = l2.
Proof.
  intros Hs1 Hf1 Hs2 Hf2.
  assert (forall k, filter (fun x => key x = k) l1 = filter (fun x => key x = k) l2)
    as Hf by (intros k; by rewrite Hf1, Hf2).
  clear Hf1 Hf2 l. revert l2 Hs2 Hf.
  induction Hs1 as [|x l1 Hs1 IH Hx]; intros l2 Hs2 Hf.
  - destruct l2 as [|y l2]; [done|]. specialize (Hf (key y)).
    by rewrite filter_nil, filter_cons_True in Hf.
  - destruct Hs2 as [|y l2 Hs2 Hy].
    { specialize (Hf (key x)). by rewrite filter_nil, filter_cons_True in Hf. }
    assert (key x = key y) as Hk.
    { apply str_le_antisym.
      - assert (x ∈ y :: l2) as Hin.
        { assert (x ∈ filter (fun z => key z = key x) (y :: l2)) as Hin.
          { rewrite <- Hf, filter_cons_True by done. apply list_elem_of_here. }
          by apply list_elem_of_filter in Hin as [_ ?]. }
        apply elem_of_cons in Hin as [->|Hin]; [apply str_le_refl|].
        by apply (proj1 (Forall_forall _ _) Hy).
      - assert (y ∈ x :: l1) as Hin.
        { assert (y ∈ filter (fun z => key z = key y) (x :: l1)) as Hin.
          { rewrite Hf, filter_cons_True by done. apply list_elem_of_here. }
          by apply list_elem_of_filter in Hin as [_ ?]. }
        apply elem_of_cons in Hin as [->|Hin]; [apply str_le_refl|].
        by apply (proj1 (Forall_forall _ _) Hx). }
    pose proof (Hf (key x)) as Hh.
    rewrite filter_cons_True, (filter_cons_True _ y) in Hh by done.
    injection Hh as -> Ht. f_equal. apply IH; [done|].
    intros k. specialize (Hf k). rewrite !(filter_cons _ y) in Hf.
    destruct (decide (key y = k)); [by injection Hf|done].
Qed.

(** The head of the sorted list is the first element of the input among
    those of the greatest key. *)
Lemma sort_desc_head l x rest :
  sort_desc key l = x :: rest ->
  exists pre post, l = pre ++ x :: post
    /\ Forall (fun y => str_lt (key y) (key x)) pre
    /\ Forall (fun y => str_le (key y) (key x)) post.
Proof.
  intros Hsort.
  pose proof (sort_desc_descending l) as Hdesc. rewrite Hsort in Hdesc.
  apply StronglySorted_inv in Hdesc as [_ Hrest].
  assert (Forall (fun y => str_le (key y) (key x)) l) as Hall.
  { rewrite <- (sort_desc_perm l), Hsort. constructor; [apply str_le_refl|done]. }
  pose proof (sort_desc_stable l (key x)) as Hst.
  rewrite Hsort, filter_cons_True in Hst by done. symmetry in Hst.
  apply filter_head_split in Hst as (pre & post & -> & Hpre & _ & _).
  exists pre, post. split; [done|].
  apply Forall_app in Hall as [Hall_pre Hall_post].
  apply Forall_cons in Hall_post as [_ Hall_post]. split; [|done].
  apply Forall_forall. intros y Hy.
  pose proof (proj1 (Forall_forall _ _) Hall_pre y Hy) as Hle.
  pose proof (proj1 (Forall_forall _ _) Hpre y Hy) as Hne.
  apply str_le_cases in Hle as [?|?]; [done|by destruct Hne].
Qed.
End sort_facts.

(** ** What [find_duplicates] returns *)

Lemma find_duplicates_inv (files : list FileRecord) (dup : Buckets) :
  find_duplicates files = Ok dup -> Forall (has_field "name") files.
Proof.
  intros Hfd. destruct (decide (Forall (has_field "name") files)) as [|Hn]; [done|].
  apply not_Forall_Exists in Hn; [|apply _].
  assert (Exists (fun f => f !! "name" = None) files) as Hex.
  { eapply Exists_impl; [exact Hn|]. intros f Hf. simpl in Hf.
    unfold has_field in Hf. destruct (f !! "name"); [|done]. destruct Hf. eauto. }
  unfold find_duplicates, group_by_name in Hfd.
  rewrite group_loop_raises in Hfd by done. done.
Qed.

Lemma find_duplicates_spec (files : list FileRecord) :
  Forall (has_field "name") files ->
  exists dup, find_duplicates files = Ok dup
    /\ NoDup dup.*1
    /\ (forall n b, (n, b) ∈ dup <-> b = filter (named n) files /\ 1 < length b).
Proof.
  intros Hall. destruct (group_by_name_spec files Hall) as (d & Hd & Hnd & Hb & _).
  exists (filter_multiple d). unfold find_duplicates. rewrite Hd.
  split_and!; [done| |].
  - eapply sublist_NoDup; [exact Hnd|]. apply fmap_sublist, sublist_filter; apply _.
  - intros n b. unfold filter_multiple. rewrite list_elem_of_filter, Hb. simpl.
    split; [tauto|]. intros [-> Hlen]. split_and!; try done.
    intros Hnil. rewrite Hnil in Hlen. simpl in Hlen. lia.
Qed.

Lemma find_duplicates_elem (files : list FileRecord) (dup : Buckets) n b :
  find_duplicates files = Ok dup -> (n, b) ∈ dup ->
  b = filter (named n) files /\ 1 < length b.
Proof.
  intros Hfd Hin. pose proof (find_duplicates_inv _ _ Hfd) as Hall.
  destruct (find_duplicates_spec files Hall) as (dup' & Hfd' & _ & Hb).
  rewrite Hfd in Hfd'. injection Hfd' as <-. by apply Hb.
Qed.

(** ** The choice made in a group *)

Lemma plan_group_ok (name : string) (group : list FileRecord) :
  group ≠ [] ->
  exists p, plan_group name group = Ok p
    /\ plan_name p = name
    /\ sort_desc mtime_key group = keep p :: to_delete p.
Proof.
  intros Hne. unfold plan_group.
  destruct (sort_desc mtime_key group) as [|k ds] eqn:Hs.
  - apply (f_equal length) in Hs. rewrite sort_desc_length in Hs.
    by destruct group.
  - by exists (mkPlan name k ds).
Qed.

Lemma plan_group_inv (name : string) (group : list FileRecord) (p : Plan) :
  plan_group name group = Ok p ->
  plan_name p = name /\ sort_desc mtime_key group = keep p :: to_delete p.
Proof.
  unfold plan_group. destruct (sort_desc mtime_key group); [done|].
  by intros [= <-].
Qed.

(** C1: for a group of two or more records, the choice of lines 134-138
    keeps one record and deletes all the others: keep and delete records
    together are the members of the group, each once (so a group of distinct
    records has its keep record outside the delete sequence), there is one
    delete record less than members, and no delete record has a greater
    [modifiedTime] than the keep record, an absent time counting as the
    empty string. *)
Theorem plan_keeps_newest_deletes_rest (name : string) (group : list FileRecord) :
  1 < length group ->
  exists p, plan_group name group = Ok p
    /\ keep p :: to_delete p ≡ₚ group
    /\ (NoDup group -> keep p ∉ to_delete p)
    /\ length (to_delete p) = length group - 1
    /\ Forall (fun d => str_le (default "" (d !! "modifiedTime"))
                               (default "" (keep p !! "modifiedTime")))
              (to_delete p).
Proof.
  intros Hlen.
  destruct (plan_group_ok name group) as (p & Hp & _ & Hs).
  { intros ->. simpl in Hlen. lia. }
  pose proof (sort_desc_perm mtime_key group) as Hperm. rewrite Hs in Hperm.
  exists p. split_and!; try done.
  - intros Hnd. rewrite <- Hperm in Hnd. by apply NoDup_cons in Hnd as [? _].
  - apply Permutation_length in Hperm. simpl in Hperm. lia.
  - pose proof (sort_desc_descending mtime_key group) as Hd. rewrite Hs in Hd.
    by apply StronglySorted_inv in Hd as [_ Hd].
Qed.

Lemma plan_keeps_newest_deletes_rest_witness :
  1 < length [sample_A; sample_B]
  /\ exists p, plan_group "x.pdf" [sample_A; sample_B] = Ok p
    /\ keep p :: to_delete p ≡ₚ [sample_A; sample_B]
    /\ (NoDup [sample_A; sample_B] -> keep p ∉ to_delete p)
    /\ length (to_delete p) = length [sample_A; sample_B] - 1
    /\ Forall (fun d => str_le (default "" (d !! "modifiedTime"))
                               (default "" (keep p !! "modifiedTime")))
              (to_delete p).
Proof.
  split; [simpl; lia|].
  apply (plan_keeps_newest_deletes_rest "x.pdf" [sample_A; sample_B]). simpl. lia.
Defined.

Example plan_sample :
  build_plan [sample_A; sample_B; sample_C] = Ok [mkPlan "x.pdf" sample_B [sample_A]].
Proof. cbv zeta. compute_done. Qed.

(** Without [modifiedTime] a record sorts as the oldest. *)
Lemma untimed_is_oldest (f g : FileRecord) :
  f !! "modifiedTime" = None -> str_le (mtime_key f) (mtime_key g).
Proof. intros Hf. unfold mtime_key, get. rewrite Hf. apply str_le_empty. Qed.

(** A record without [modifiedTime] is never kept in front of a timed one. *)
Example plan_untimed :
  plan_group "x.pdf" [untimed_record "U" "x.pdf"; sample_A]
  = Ok (mkPlan "x.pdf" sample_A [untimed_record "U" "x.pdf"]).
Proof. cbv zeta. compute_done. Qed.

(** C4: the sort is stable, so among the records of a duplicated name that
    share the greatest [modifiedTime] the first one fetched is kept: every
    record of that name fetched before the keep record has a strictly
    smaller [modifiedTime], and none fetched after it has a greater one, an
    absent time counting as the empty string. *)
Theorem keep_is_first_fetched_among_newest
    (files : list FileRecord) (dup : Buckets) (name : string) (group : list FileRecord) :
  find_duplicates files = Ok dup -> (name, group) ∈ dup ->
  exists p earlier later,
    plan_group name group = Ok p
    /\ filter (named name) files = earlier ++ keep p :: later
    /\ Forall (fun f => str_lt (default "" (f !! "modifiedTime"))
                               (default "" (keep p !! "modifiedTime"))) earlier
    /\ Forall (fun f => str_le (default "" (f !! "modifiedTime"))
                               (default "" (keep p !! "modifiedTime"))) later.
Proof.
  intros Hfd Hin. destruct (find_duplicates_elem _ _ _ _ Hfd Hin) as [Hg Hlen].
  destruct (plan_group_ok name group) as (p & Hp & _ & Hs).
  { intros ->. simpl in Hlen. lia. }
  destruct (sort_desc_head mtime_key group _ _ Hs) as (pre & post & Heq & Hpre & Hpost).
  exists p, pre, post. rewrite <- Hg. split_and!; [done|done|exact Hpre|exact Hpost].
Qed.

(** An older copy fetched first is passed over, and of the two newest
    copies, which have the same time, the one fetched first is kept. *)
Lemma keep_is_first_fetched_among_newest_witness :
  exists p, plan_group "z.pdf" [sample_W; sample_X; sample_Y] = Ok p
            /\ keep p = sample_X.
Proof.
  destruct (keep_is_first_fetched_among_newest
              [sample_W; sample_X; sample_Y]
              [("z.pdf", [sample_W; sample_X; sample_Y])]
              "z.pdf" [sample_W; sample_X; sample_Y])
    as (p & earlier & later & Hp & Hsplit & Hearlier & Hlater).
  - compute_done.
  - apply list_elem_of_here.
  - exists p. split; [done|].
    change (filter (named "z.pdf") [sample_W; sample_X; sample_Y])
      with ([sample_W; sample_X; sample_Y]) in Hsplit.
    destruct earlier as [|e1 earlier]; simpl in Hsplit.
    { injection Hsplit as Hk Hl. subst later. rewrite <- Hk in Hlater.
      apply Forall_cons in Hlater as [Hle _]. by vm_compute in Hle. }
    injection Hsplit as _ Hsplit.
    destruct earlier as [|e2 earlier]; simpl in Hsplit; [congruence|].
    injection Hsplit as He2 Hsplit. subst e2.
    apply Forall_cons in Hearlier as [_ Hearlier].
    apply Forall_cons in Hearlier as [Hlt _].
    destruct earlier as [|e3 earlier]; simpl in Hsplit.
    + injection Hsplit as Hk _. rewrite <- Hk in Hlt. by vm_compute in Hlt.
    + injection Hsplit as _ Hsplit. by destruct earlier.
Defined.

Example tie_keeps_first :
  build_plan [sample_X; sample_Y] = Ok [mkPlan "z.pdf" sample_X [sample_Y]]
  /\ build_plan [sample_Y; sample_X] = Ok [mkPlan "z.pdf" sample_Y [sample_X]]
  /\ build_plan [sample_W; sample_X; sample_Y]
     = Ok [mkPlan "z.pdf" sample_X [sample_Y; sample_W]].
Proof. cbv zeta. compute_done. Qed.

(** ** Runs: what leaves the service alone *)

Section quiet_facts.
Context {G : Type} `{Drive G}.

Lemma quiet_ret {A} (a : A) : quiet (ret (G:=G) a).
Proof. by intros w. Qed.

Lemma quiet_lift {A} (r : result A) : quiet (lift (G:=G) r).
Proof. by intros w. Qed.

Lemma quiet_print (l : line) : quiet (print (G:=G) l).
Proof. by intros w. Qed.

Lemma quiet_bind {A B} (m : M G A) (k : A -> M G B) :
  quiet m -> (forall a, quiet (k a)) -> quiet (bind m k).
Proof.
  intros Hm Hk w. unfold bind. specialize (Hm w).
  destruct (m w) as [[a|e] w1]; simpl in *; [|done].
  destruct (Hk a w1) as [-> ->]. done.
Qed.

Lemma quiet_list_files_in_folder (folder_id : string) :
  quiet (list_files_in_folder (G:=G) folder_id).
Proof.
  intros w. unfold list_files_in_folder.
  destruct (fetch_pages _ _) as [results|[]]; try done.
Qed.

Lemma quiet_delete_loop_dry (name : string) (to_delete : list FileRecord) (total : nat) :
  quiet (delete_loop (G:=G) true name to_delete total).
Proof.
  revert total. induction to_delete as [|file rest IH]; intros total; simpl.
  - apply quiet_ret.
  - apply quiet_bind; [apply quiet_lift|]. intros id.
    apply quiet_bind; [apply quiet_print|]. intros _. apply IH.
Qed.

Lemma quiet_groups_loop_dry (duplicates : Buckets) (total : nat) :
  quiet (groups_loop (G:=G) true duplicates total).
Proof.
  revert total. induction duplicates as [|[name files_list] rest IH]; intros total; simpl.
  - apply quiet_ret.
  - apply quiet_bind; [apply quiet_print|]. intros _.
    apply quiet_bind; [apply quiet_lift|]. intros p.
    apply quiet_bind; [apply quiet_lift|]. intros id.
    apply quiet_bind; [apply quiet_print|]. intros _.
    apply quiet_bind; [apply quiet_delete_loop_dry|]. intros total'. apply IH.
Qed.

Lemma quiet_cleanup_duplicates_dry (folder_id : string) :
  quiet (cleanup_duplicates (G:=G) folder_id true).
Proof.
  unfold cleanup_duplicates.
  apply quiet_bind; [apply quiet_print|]. intros _.
  apply quiet_bind; [apply quiet_list_files_in_folder|]. intros files.
  apply quiet_bind; [apply quiet_print|]. intros _.
  apply quiet_bind; [apply quiet_lift|]. intros [|d duplicates].
  - apply quiet_print.
  - apply quiet_bind; [apply quiet_print|]. intros _.
    apply quiet_bind; [apply quiet_groups_loop_dry|]. intros total.
    repeat (apply quiet_bind; [apply quiet_print|]; intros _).
    apply quiet_print.
Qed.
End quiet_facts.

(** C3: with [dry_run] true, [cleanup_duplicates] sends no delete request to
    the service, whatever the service lists and however the run ends; the
    service is left in the state it was in. *)
Theorem dry_run_sends_no_delete_request
    {G : Type} `{Drive G} (folder_id : string) (w : World G) :
  delete_calls (cleanup_duplicates folder_id true w).2 = delete_calls w
  /\ drive (cleanup_duplicates folder_id true w).2 = drive w.
Proof. by destruct (quiet_cleanup_duplicates_dry folder_id w). Qed.

Example dry_run_sample :
  let w := (cleanup_duplicates "F" true
              (start (mkScripted [sample_A; sample_B; sample_C] [RaisesHttpError]))).2 in
  delete_calls w = []
  /\ stdout w = [LScanning "F"; LFoundFiles 3; LFoundDuplicates 1; LCopies "x.pdf" 2;
                 LKeeping "B" "2024-01-05"; LWouldDelete "A" "2024-01-02";
                 LRule; LSummary; LTotalScanned 3; LFilesWithDuplicates 1;
                 LFilesToDelete 1; LDryRunMode; LRunWithDelete].
Proof. cbv zeta. compute_done. Qed.

(** ** Runs: what a run sends to the service *)

Lemma fetch_pages_raises (pages : listing) (results : list FileRecord) (e : exn) :
  fetch_pages pages results = Raise e -> e = HttpError.
Proof.
  revert results. induction pages as [files|files rest IH|]; intros results; simpl.
  - done.
  - apply IH.
  - by intros [= <-].
Qed.

Lemma file_ids_cons (f : FileRecord) (id : string) (l : list FileRecord) :
  f !! "id" = Some id -> file_ids (f :: l) = id :: file_ids l.
Proof. intros Hid. unfold file_ids. simpl. by rewrite Hid. Qed.

Lemma file_ids_app (l1 l2 : list FileRecord) :
  file_ids (l1 ++ l2) = file_ids l1 ++ file_ids l2.
Proof. apply omap_app. Qed.

Lemma file_ids_length (l : list FileRecord) :
  Forall (has_field "id") l -> length (file_ids l) = length l.
Proof.
  induction 1 as [|f l [id Hid] _ IH]; [done|].
  rewrite (file_ids_cons f id) by done. simpl. by rewrite IH.
Qed.

Section run_facts.
Context {G : Type} `{Drive G}.

Lemma list_files_in_folder_spec (folder_id : string) (w : World G) :
  exists w', list_files_in_folder folder_id w
             = (Ok (listed_files (drive w) folder_id), w')
    /\ drive w' = drive w /\ delete_calls w' = delete_calls w.
Proof.
  unfold list_files_in_folder, listed_files.
  destruct (fetch_pages _ _) as [results|e] eqn:Hf.
  - by exists w.
  - apply fetch_pages_raises in Hf as ->. by eexists.
Qed.

Lemma delete_loop_spec (dry_run : bool) (name : string)
    (to_delete : list FileRecord) (total : nat) (w : World G) :
  Forall (has_field "id") to_delete ->
  exists w', delete_loop dry_run name to_delete total w
             = (Ok (total + length to_delete), w')
    /\ (delete_calls w').*1
       = (delete_calls w).*1 ++ (if dry_run then [] else file_ids to_delete)
    /\ drive w'
       = (if dry_run then drive w else after_requests (drive w) (file_ids to_delete)).
Proof.
  intros Hall. revert total w.
  induction Hall as [|file rest [id Hid] _ IH]; intros total w.
  - exists w. simpl. rewrite Nat.add_0_r. split; [done|].
    destruct dry_run; by rewrite (right_id_L [] (++)).
  - cbn [delete_loop]. unfold bind at 1, lift, getitem. rewrite Hid.
    replace (total + length (file :: rest)) with (S total + length rest)
      by (simpl; lia).
    destruct dry_run.
    + unfold bind at 1, print.
      destruct (IH (S total) (mkWorld (drive w)
        (stdout w ++ [LWouldDelete id (get file "modifiedTime" "N/A")])
        (delete_calls w))) as (w' & Hrun & Hcalls & Hdrive).
      exists w'. split_and!; [exact Hrun | exact Hcalls | exact Hdrive].
    + rewrite (file_ids_cons file id) by done.
      unfold bind at 1. unfold bind at 1, print. unfold bind at 1.
      unfold delete_file, bind at 1, request_delete. cbn [drive stdout delete_calls].
      destruct (drive_delete (drive w) id) as [[] g] eqn:Hd;
        unfold bind at 1, print, ret; cbn [drive stdout delete_calls];
        match goal with
        | |- context [delete_loop false name rest (S total) ?w1] =>
            destruct (IH (S total) w1) as (w' & Hrun & Hcalls & Hdrive)
        end;
        exists w'; (split; [exact Hrun|]);
        rewrite Hcalls, Hdrive; cbn [delete_calls drive]; rewrite fmap_app;
        (split; [by rewrite <- (assoc_L (++))|]);
        unfold after_requests; cbn [foldl]; by rewrite Hd.
Qed.
End run_facts.

Section bind_facts.
Context {G : Type}.

Lemma bind_print {B} (l : line) (k : unit -> M G B) (w : World G) :
  bind (print l) k w = k tt (mkWorld (drive w) (stdout w ++ [l]) (delete_calls w)).
Proof. done. Qed.

Lemma bind_lift_ok {A B} (a : A) (k : A -> M G B) (w : World G) :
  bind (lift (Ok a)) k w = k a w.
Proof. done. Qed.

Lemma bind_lift_ok_ret {B} (k : unit -> M G B) (w : World G) :
  bind (ret tt) k w = k tt w.
Proof. done. Qed.

Lemma bind_assoc {A B C} (m : M G A) (f : A -> M G B) (k : B -> M G C) (w : World G) :
  bind (bind m f) k w = bind m (fun a => bind (f a) k) w.
Proof. unfold bind. by destruct (m w) as [[a|e] w1]. Qed.

Lemma bind_ok {A B} (m : M G A) (k : A -> M G B) (w w1 : World G) (a : A) :
  m w = (Ok a, w1) -> bind m k w = k a w1.
Proof. intros Hm. unfold bind. by rewrite Hm. Qed.

Lemma bind_raises {A B} (m : M G A) (k : A -> M G B) (w w1 : World G) (e : exn) :
  m w = (Raise e, w1) -> bind m k w = (Raise e, w1).
Proof. intros Hm. unfold bind. by rewrite Hm. Qed.

End bind_facts.

Lemma planned_deletions_cons (p : Plan) (plans : list Plan) :
  planned_deletions (p :: plans) = to_delete p ++ planned_deletions plans.
Proof. done. Qed.

Section cleanup_facts.
Context {G : Type} `{Drive G}.

Lemma groups_loop_spec (dry_run : bool) (duplicates : Buckets)
    (total : nat) (w : World G) :
  Forall (fun item => item.2 ≠ [] /\ Forall (has_field "id") item.2) duplicates ->
  exists plans w',
    plan_groups duplicates = Ok plans
    /\ groups_loop dry_run duplicates total w
       = (Ok (total + length (planned_deletions plans)), w')
    /\ (delete_calls w').*1
       = (delete_calls w).*1
         ++ (if dry_run then [] else file_ids (planned_deletions plans))
    /\ drive w'
       = (if dry_run then drive w
          else after_requests (drive w) (file_ids (planned_deletions plans))).
Proof.
  intros Hall. revert total w.
  induction Hall as [|[name files_list] rest [Hne Hids] _ IH]; intros total w.
  - exists [], w. simpl. rewrite Nat.add_0_r. split_and!; try done.
    + destruct dry_run; by rewrite (right_id_L [] (++)).
    + by destruct dry_run.
  - simpl in Hne, Hids.
    destruct (plan_group_ok name files_list Hne) as (p & Hp & _ & Hs).
    assert (Forall (has_field "id") (keep p :: to_delete p)) as Hids'.
    { rewrite <- Hs. by rewrite sort_desc_perm. }
    apply Forall_cons in Hids' as [[kid Hkid] Hdel].
    cbn [groups_loop plan_groups]. rewrite Hp, bind_print, bind_lift_ok.
    unfold getitem. rewrite Hkid, bind_lift_ok, bind_print.
    edestruct (delete_loop_spec dry_run name (to_delete p) total)
      as (w1 & Hrun & Hc1 & Hd1); [exact Hdel|].
    erewrite bind_ok by exact Hrun.
    destruct (IH (total + length (to_delete p)) w1)
      as (plans & w' & -> & Hloop & Hc & Hd).
    exists (p :: plans), w'. split; [done|].
    rewrite planned_deletions_cons, length_app, Nat.add_assoc. split; [done|].
    rewrite Hc, Hc1, Hd, Hd1. cbn [delete_calls drive]. rewrite <- (assoc_L (++)).
    destruct dry_run; [done|]. rewrite file_ids_app. split; [done|].
    unfold after_requests. by rewrite foldl_app.
Qed.

(** The run on a listing whose records all carry a name and an id. *)
Lemma cleanup_duplicates_spec (folder_id : string) (dry_run : bool) (w : World G) :
  let files := listed_files (drive w) folder_id in
  Forall (has_field "name") files -> Forall (has_field "id") files ->
  exists plans w',
    build_plan files = Ok plans
    /\ cleanup_duplicates folder_id dry_run w = (Ok tt, w')
    /\ (delete_calls w').*1
       = (delete_calls w).*1
         ++ (if dry_run then [] else file_ids (planned_deletions plans))
    /\ drive w'
       = (if dry_run then drive w
          else after_requests (drive w) (file_ids (planned_deletions plans)))
    /\ (plans ≠ [] ->
        exists out, stdout w'
          = out ++ LFilesToDelete (length (planned_deletions plans))
                :: (if dry_run then [LDryRunMode; LRunWithDelete]
                    else [LSuccessfullyRemoved (length (planned_deletions plans))])).
Proof.
  intros files Hnames Hids.
  destruct (find_duplicates_spec files Hnames) as (dup & Hfd & _ & Hb).
  assert (Forall (fun item : string * list FileRecord =>
                    item.2 ≠ [] /\ Forall (has_field "id") item.2) dup) as Hdup.
  { apply Forall_forall. intros [n b] [-> Hlen]%Hb. simpl. split.
    - intros Hnil. rewrite Hnil in Hlen. simpl in Hlen. lia.
    - apply Forall_forall. intros f [_ Hf]%list_elem_of_filter.
      by apply (proj1 (Forall_forall _ _) Hids). }
  unfold cleanup_duplicates. rewrite bind_print.
  edestruct (list_files_in_folder_spec folder_id) as (w1 & Hlist & Hd1 & Hc1).
  erewrite bind_ok by exact Hlist. cbn [drive] in Hlist |- *.
  fold files. rewrite bind_print, Hfd, bind_lift_ok.
  unfold build_plan. rewrite Hfd.
  destruct dup as [|item dup].
  - exists [], (mkWorld (drive w1) ((stdout w1 ++ [LFoundFiles (length files)])
                                     ++ [LNoDuplicates]) (delete_calls w1)).
    split_and!; try done.
    + cbn [delete_calls] in *. rewrite Hc1.
      change (file_ids (planned_deletions [])) with (@nil string).
      destruct dry_run; by rewrite (right_id_L [] (++)).
    + cbn [drive]. rewrite Hd1. by destruct dry_run.
  - rewrite bind_print.
    edestruct (groups_loop_spec dry_run (item :: dup) 0)
      as (plans & w2 & Hplans & Hloop & Hc2 & Hd2); [exact Hdup|].
    erewrite bind_ok by exact Hloop. rewrite !bind_print.
    exists plans.
    destruct dry_run; (eexists; split; [exact Hplans|]).
    + rewrite bind_print. split; [reflexivity|]. cbn [stdout delete_calls drive] in *.
      rewrite Hc2, Hc1, Hd2, Hd1. split; [done|]. split; [done|]. intros _.
      match goal with
      | |- exists out, ((?pre ++ [_]) ++ [_]) ++ [_] = _ => exists pre
      end.
      by rewrite <- !(assoc_L (++)).
    + split; [reflexivity|]. cbn [stdout delete_calls drive] in *.
      rewrite Hc2, Hc1, Hd2, Hd1. split; [done|]. split; [done|]. intros _.
      match goal with
      | |- exists out, (?pre ++ [_]) ++ [_] = _ => exists pre
      end.
      by rewrite <- !(assoc_L (++)).
Qed.
End cleanup_facts.

Lemma plan_groups_spec (duplicates : Buckets) (plans : list Plan) :
  plan_groups duplicates = Ok plans ->
  Forall2 (fun item p => plan_group item.1 item.2 = Ok p) duplicates plans.
Proof.
  revert plans. induction duplicates as [|[n b] dup IH]; intros plans; simpl.
  - intros [= <-]. constructor.
  - destruct (plan_group n b) as [p|] eqn:Hp; [|done].
    destruct (plan_groups dup) as [ps|]; [|done]. intros [= <-].
    constructor; [done|]. by apply IH.
Qed.

(** Every plan comes from a duplicated name of the listing: its keep and
    delete records are the records of that name, sorted. *)
Lemma build_plan_sorted (files : list FileRecord) (plans : list Plan) (p : Plan) :
  build_plan files = Ok plans -> p ∈ plans ->
  sort_desc mtime_key (filter (named (plan_name p)) files) = keep p :: to_delete p
  /\ 1 < length (filter (named (plan_name p)) files).
Proof.
  unfold build_plan. destruct (find_duplicates files) as [dup|] eqn:Hfd; [|done].
  intros Hplans%plan_groups_spec Hin.
  apply list_elem_of_lookup in Hin as [i Hi].
  destruct (Forall2_lookup_r _ _ _ _ _ Hplans Hi) as ([n b] & Hdi & Hp).
  simpl in Hp. apply plan_group_inv in Hp as [<- Hs].
  assert ((plan_name p, b) ∈ dup) as Hb by (apply list_elem_of_lookup; eauto).
  by destruct (find_duplicates_elem _ _ _ _ Hfd Hb) as [<- Hlen].
Qed.

Lemma build_plan_elem (files : list FileRecord) (plans : list Plan) (p : Plan) :
  build_plan files = Ok plans -> p ∈ plans ->
  keep p :: to_delete p ≡ₚ filter (named (plan_name p)) files
  /\ 1 < length (filter (named (plan_name p)) files).
Proof.
  intros Hplans Hp. destruct (build_plan_sorted files plans p Hplans Hp) as [Hs Hlen].
  split; [|done]. by rewrite <- Hs, sort_desc_perm.
Qed.

Lemma planned_deletions_elem (plans : list Plan) (f : FileRecord) :
  f ∈ planned_deletions plans <-> exists p, p ∈ plans /\ f ∈ to_delete p.
Proof.
  induction plans as [|q plans IH].
  - split; [by intros ?%elem_of_nil | by intros (p & ?%elem_of_nil & _)].
  - rewrite planned_deletions_cons, elem_of_app, IH. split.
    + intros [Hf|(p & Hp & Hf)].
      * exists q. split; [apply list_elem_of_here | done].
      * exists p. split; [by apply list_elem_of_further | done].
    + intros (p & [->|Hp]%elem_of_cons & Hf); [by left | right; eauto].
Qed.

Lemma planned_deletions_listed (files : list FileRecord) (plans : list Plan) (f : FileRecord) :
  build_plan files = Ok plans -> f ∈ planned_deletions plans -> f ∈ files.
Proof.
  intros Hplans (p & Hp & Hf)%planned_deletions_elem.
  destruct (build_plan_elem files plans p Hplans Hp) as [Hperm _].
  assert (f ∈ filter (named (plan_name p)) files) as Hin.
  { rewrite <- Hperm. by apply list_elem_of_further. }
  by apply list_elem_of_filter in Hin as [_ ?].
Qed.

Lemma planned_deletions_ids (files : list FileRecord) (plans : list Plan) :
  Forall (has_field "id") files -> build_plan files = Ok plans ->
  length (file_ids (planned_deletions plans)) = length (planned_deletions plans).
Proof.
  intros Hids Hplans. apply file_ids_length, Forall_forall. intros f Hf.
  apply (proj1 (Forall_forall _ _) Hids).
  by eapply planned_deletions_listed.
Qed.

(** C7: a failed delete request does not stop the run and is not retried.
    Whatever the service answers to each request, a run with [dry_run]
    false on a listing whose records carry a name and an id returns
    normally, and the requests it sends are the ids of the delete records of
    all groups, one request per record, in the order of the plan. *)
Theorem deletion_failure_does_not_stop_the_run
    {G : Type} `{Drive G} (folder_id : string) (w : World G) :
  Forall (has_field "name") (listed_files (drive w) folder_id) ->
  Forall (has_field "id") (listed_files (drive w) folder_id) ->
  exists plans w',
    build_plan (listed_files (drive w) folder_id) = Ok plans
    /\ cleanup_duplicates folder_id false w = (Ok tt, w')
    /\ (delete_calls w').*1
       = (delete_calls w).*1 ++ file_ids (planned_deletions plans)
    /\ length (file_ids (planned_deletions plans)) = length (planned_deletions plans).
Proof.
  intros Hnames Hids.
  destruct (cleanup_duplicates_spec folder_id false w Hnames Hids)
    as (plans & w' & Hplans & Hrun & Hcalls & _ & _).
  exists plans, w'. split_and!; try done.
  by eapply planned_deletions_ids.
Qed.

Lemma deletion_failure_does_not_stop_the_run_witness :
  exists plans w',
    build_plan (listed_files (drive failing_second) "F") = Ok plans
    /\ cleanup_duplicates "F" false failing_second = (Ok tt, w')
    /\ (delete_calls w').*1
       = (delete_calls failing_second).*1 ++ file_ids (planned_deletions plans)
    /\ length (file_ids (planned_deletions plans)) = length (planned_deletions plans).
Proof.
  apply (deletion_failure_does_not_stop_the_run "F" failing_second); has_fields.
Defined.

(** C2: the summary of a run that deletes counts the delete records, not
    what the service answered.  With three delete records and a service
    that fails on the second request, the run prints the failure when it
    happens, and then [Files to delete: 3] and [Successfully removed 3
    duplicate files]: two successes and one failure are not reported. *)
Theorem summary_counts_records_not_outcomes :
  (cleanup_duplicates "F" false failing_second).1 = Ok tt
  /\ delete_calls (cleanup_duplicates "F" false failing_second).2
     = [("E", Succeeds); ("D", RaisesHttpError); ("A", Succeeds)]
  /\ stdout (cleanup_duplicates "F" false failing_second).2
     = [LScanning "F"; LFoundFiles 4; LFoundDuplicates 1; LCopies "x.pdf" 4;
        LKeeping "B" "2024-01-05";
        LDeleting "E" "2024-01-04"; LDeleted "x.pdf" "E";
        LDeleting "D" "2024-01-03"; LFailedToDelete "x.pdf";
        LDeleting "A" "2024-01-02"; LDeleted "x.pdf" "A";
        LRule; LSummary; LTotalScanned 4; LFilesWithDuplicates 1;
        LFilesToDelete 3; LSuccessfullyRemoved 3].
Proof. cbv zeta. compute_done. Qed.

(** The same holds of every run that deletes: the last line gives how many
    requests were sent, whatever was answered. *)
Lemma summary_reports_requests_sent
    {G : Type} `{Drive G} (folder_id : string) (w : World G) :
  Forall (has_field "name") (listed_files (drive w) folder_id) ->
  Forall (has_field "id") (listed_files (drive w) folder_id) ->
  find_duplicates (listed_files (drive w) folder_id) ≠ Ok [] ->
  last (stdout (cleanup_duplicates folder_id false w).2)
  = Some (LSuccessfullyRemoved
            (length (delete_calls (cleanup_duplicates folder_id false w).2)
             - length (delete_calls w))).
Proof.
  intros Hnames Hids Hdup.
  destruct (cleanup_duplicates_spec folder_id false w Hnames Hids)
    as (plans & w' & Hplans & Hrun & Hcalls & _ & Hout).
  rewrite Hrun. simpl.
  destruct Hout as [out Hout].
  { intros ->. unfold build_plan in Hplans.
    destruct (find_duplicates _) as [[|[n b] dup]|]; try done.
    simpl in Hplans. destruct (plan_group n b); [|done].
    by destruct (plan_groups dup). }
  rewrite Hout.
  match goal with
  | |- last (out ++ [?a; ?b]) = _ =>
      replace (out ++ [a; b]) with ((out ++ [a]) ++ [b])
        by (by rewrite <- (assoc_L (++)))
  end.
  rewrite last_snoc. do 2 f_equal.
  apply (f_equal length) in Hcalls. rewrite length_app, !length_fmap in Hcalls.
  rewrite Hcalls, (planned_deletions_ids _ _ Hids Hplans). lia.
Qed.

(** ** The script and its exit status *)

Section script_facts.
Context {G : Type} `{Drive G}.

(** [authenticate] returns or raises as the machine decides, whatever was
    printed before, and sends nothing to the service. *)
Lemma authenticate_spec (host : Host) (token_file : string) (w : World G) :
  exists r w', authenticate host token_file w = (r, w')
    /\ drive w' = drive w /\ delete_calls w' = delete_calls w
    /\ forall w2 : World G, (authenticate host token_file w2).1 = r.
Proof.
  unfold authenticate.
  destruct (path_exists host token_file),
    (from_authorized_user_file host token_file) as [[[] [] []]|],
    (creds_refresh host) as [[]|], (run_local_server host) as [?|],
    (write_token_file host token_file) as [[]|], (build_service host) as [[]|],
    (path_exists host "credentials.json"); simpl; by eauto 10.
Qed.


End script_facts.




(** The status is not 0 when an exception leaves [main]: a listed record
    without a name ends the run with [KeyError]. *)
Example key_error_exits_nonzero :
  exit_status (mkArgs "F" false "token.json") ready_host
    (start (mkScripted [sample_A; sample_nameless] [])) = 1.
Proof. compute_done. Qed.

(** So it is with a token file that does not hold a stored token, where
    [authenticate] raises [ValueError] before it looks for
    [credentials.json], and with the input at its end at the prompt. *)
Example garbled_token_exits_nonzero :
  (main (mkArgs "F" false "token.json") garbled_token_host failing_second).1
  = Raise ValueError
  /\ stdout (main (mkArgs "F" false "token.json") garbled_token_host failing_second).2
     = [LRule; LTitle; LRule]
  /\ exit_status (mkArgs "F" false "token.json") garbled_token_host failing_second = 1.
Proof. compute_done. Qed.

Example end_of_input_exits_nonzero :
  (main (mkArgs "F" true "token.json") closed_input_host failing_second).1
  = Raise EOFError
  /\ exit_status (mkArgs "F" true "token.json") closed_input_host failing_second = 1.
Proof. compute_done. Qed.

(** ** Running the resolver again *)

Lemma filter_submseteq_mono {A} (P : A -> Prop) `{!forall x, Decision (P x)}
    (l k : list A) :
  l ⊆+ k -> filter P l ⊆+ filter P k.
Proof.
  induction 1 as [|x l k _ IH|x y l|x l k _ IH|l k m _ IH1 _ IH2].
  - done.
  - rewrite !filter_cons. destruct (decide (P x)); [by apply submseteq_skip|done].
  - rewrite !filter_cons. destruct (decide (P x)), (decide (P y)); try done.
    apply submseteq_swap.
  - rewrite filter_cons. destruct (decide (P x)); [by apply submseteq_cons|done].
  - by etrans.
Qed.

(** A list inside [x :: t] that avoids [t] has at most one element. *)
Lemma submseteq_avoiding_tail {A} (l t : list A) (x : A) :
  l ⊆+ x :: t -> (forall y, y ∈ l -> y ∉ t) -> length l <= 1.
Proof.
  intros Hsub Havoid.
  assert (forall l', l' ⊆+ t -> (forall y, y ∈ l' -> y ∉ t) -> l' = []) as Hnil.
  { intros [|y l'] Hl' Hno; [done|]. exfalso. apply (Hno y).
    - apply list_elem_of_here.
    - eapply elem_of_submseteq; [apply list_elem_of_here|exact Hl']. }
  apply submseteq_cons_r in Hsub as [Hsub|(l' & Hperm & Hsub)].
  - rewrite (Hnil l Hsub Havoid). simpl. lia.
  - rewrite Hperm. rewrite (Hnil l' Hsub); [simpl; lia|].
    intros y Hy. apply Havoid. rewrite Hperm. by apply list_elem_of_further.
Qed.

(** A duplicated name has a plan. *)
Lemma build_plan_covers (files : list FileRecord) (plans : list Plan) (n : string) :
  build_plan files = Ok plans ->
  1 < length (filter (named n) files) ->
  exists p, p ∈ plans /\ keep p :: to_delete p ≡ₚ filter (named n) files.
Proof.
  intros Hplans Hlen. pose proof Hplans as Hbp. unfold build_plan in Hplans.
  destruct (find_duplicates files) as [dup|] eqn:Hfd; [|done].
  pose proof (find_duplicates_inv _ _ Hfd) as Hnames.
  destruct (find_duplicates_spec files Hnames) as (dup' & Hfd' & _ & Hb).
  rewrite Hfd in Hfd'. injection Hfd' as <-.
  assert ((n, filter (named n) files) ∈ dup) as Hin by (by apply Hb).
  apply list_elem_of_lookup in Hin as [i Hi].
  apply plan_groups_spec in Hplans.
  destruct (Forall2_lookup_l _ _ _ _ _ Hplans Hi) as (p & Hpi & Hp).
  simpl in Hp. apply plan_group_inv in Hp as [_ Hs].
  exists p. split; [apply list_elem_of_lookup; eauto|].
  by rewrite <- Hs, sort_desc_perm.
Qed.

(** After the plan is applied no name is left with two records. *)
Lemma at_most_one_left
    (files files' : list FileRecord) (plans : list Plan) (n : string) :
  build_plan files = Ok plans ->
  files' ⊆+ files ->
  (forall f, f ∈ planned_deletions plans -> f ∉ files') ->
  length (filter (named n) files') <= 1.
Proof.
  intros Hplans Hsub Hgone.
  destruct (decide (1 < length (filter (named n) files'))) as [Hlen|]; [|lia].
  pose proof (filter_submseteq_mono (named n) _ _ Hsub) as Hfsub.
  destruct (build_plan_covers files plans n Hplans) as (p & Hp & Hperm).
  { apply submseteq_length in Hfsub. lia. }
  rewrite <- Hperm in Hfsub.
  apply submseteq_avoiding_tail in Hfsub; [done|].
  intros f [_ Hf]%list_elem_of_filter Hdel. apply (Hgone f); [|done].
  apply planned_deletions_elem. eauto.
Qed.

Lemma find_duplicates_none (files : list FileRecord) :
  Forall (has_field "name") files ->
  (forall n, length (filter (named n) files) <= 1) ->
  find_duplicates files = Ok [].
Proof.
  intros Hnames Hone.
  destruct (find_duplicates_spec files Hnames) as (dup & -> & _ & Hb).
  f_equal. destruct dup as [|[n b] dup]; [done|]. exfalso.
  destruct (proj1 (Hb n b)) as [-> Hlen]; [apply list_elem_of_here|].
  specialize (Hone n). lia.
Qed.

Lemma build_plan_names (files : list FileRecord) (plans : list Plan) :
  build_plan files = Ok plans -> Forall (has_field "name") files.
Proof.
  unfold build_plan. destruct (find_duplicates files) eqn:Hfd; [|done].
  intros _. by eapply find_duplicates_inv.
Qed.

(** C6: once the plan of a run is applied, a second run finds nothing.  If
    [files'] holds records of [files] only, each at most as often, and none
    of the delete records of the plan for [files], then no name has more
    than one record in [files'] and [find_duplicates] returns the empty
    dictionary on it. *)
Theorem second_run_finds_no_duplicates
    (files files' : list FileRecord) (plans : list Plan) :
  build_plan files = Ok plans ->
  files' ⊆+ files ->
  (forall f, f ∈ planned_deletions plans -> f ∉ files') ->
  find_duplicates files' = Ok []
  /\ forall n, length (filter (named n) files') <= 1.
Proof.
  intros Hplans Hsub Hgone.
  assert (forall n, length (filter (named n) files') <= 1) as Hone.
  { intros n. by eapply at_most_one_left. }
  split; [|done]. apply find_duplicates_none; [|done].
  apply Forall_forall. intros f Hf.
  apply (proj1 (Forall_forall _ _) (build_plan_names _ _ Hplans)).
  by eapply elem_of_submseteq.
Qed.

Lemma second_run_finds_no_duplicates_witness :
  find_duplicates [sample_B; sample_C] = Ok []
  /\ forall n, length (filter (named n) [sample_B; sample_C]) <= 1.
Proof.
  apply (second_run_finds_no_duplicates
           [sample_A; sample_B; sample_C] [sample_B; sample_C]
           [mkPlan "x.pdf" sample_B [sample_A]]).
  - compute_done.
  - apply submseteq_cons, reflexivity.
  - intros f Hf Hin. simpl in Hf. apply list_elem_of_singleton in Hf as ->.
    revert Hin. compute_done.
Defined.

(** ** [find_duplicates] on list objects *)

Lemma dict_get_deref_all (h : Heap) (d : list (string * nat)) (n : string) :
  dict_get (deref_all h d) n = deref h <$> dict_get d n.
Proof.
  induction d as [|[k r] d IH]; simpl; [done|].
  by destruct (decide (k = n)).
Qed.

Lemma dict_contains_deref_all (h : Heap) (d : list (string * nat)) (n : string) :
  dict_contains (deref_all h d) n = dict_contains d n.
Proof.
  unfold dict_contains. rewrite dict_get_deref_all. by destruct (dict_get d n).
Qed.

Lemma dict_get_Some_snd {V} (d : list (string * V)) (n : string) (v : V) :
  dict_get d n = Some v -> v ∈ d.*2.
Proof.
  intros Hg%dict_get_Some_elem. apply list_elem_of_fmap. by exists (n, v).
Qed.

(** Updating an object that the dictionary does not refer to. *)
Lemma deref_all_unreferenced (h h' : Heap) (d : list (string * nat)) :
  (forall r, r ∈ d.*2 -> h' !! r = h !! r) -> deref_all h' d = deref_all h d.
Proof.
  intros Hsame. unfold deref_all. apply list_fmap_ext. intros i [k r] Hi. simpl.
  unfold deref. rewrite Hsame; [done|].
  apply list_elem_of_fmap. exists (k, r). split; [done|].
  apply list_elem_of_lookup. eauto.
Qed.

(** Appending to the bucket of a name that has one. *)
Lemma deref_all_append (h : Heap) (d : list (string * nat)) (n : string) (r : nat)
    (file : FileRecord) :
  NoDup d.*2 -> dict_get d n = Some r -> is_Some (h !! r) ->
  deref_all (heap_append h r file) d
  = dict_set (deref_all h d) n (deref h r ++ [file]).
Proof.
  intros Hnd Hg [l Hl]. induction d as [|[k r0] d IH]; [done|].
  cbn [fmap list_fmap] in Hnd. apply NoDup_cons in Hnd as [Hr0 Hnd].
  cbn [dict_get] in Hg. unfold deref_all. rewrite !fmap_cons. cbn [dict_set fst snd].
  destruct (decide (k = n)) as [->|Hne].
  - injection Hg as ->. f_equal.
    + f_equal. unfold deref, heap_append. by rewrite lookup_alter_eq, Hl.
    + apply deref_all_unreferenced. intros r' Hr'. unfold heap_append.
      apply lookup_alter_ne. by intros ->.
  - f_equal; [|by apply IH].
    f_equal. unfold deref, heap_append. rewrite lookup_alter_ne; [done|].
    intros ->. apply Hr0. by eapply dict_get_Some_snd.
Qed.

Lemma dict_set_app_last {V} (d : list (string * V)) (n : string) (v v' : V) :
  dict_get d n = None -> dict_set (d ++ [(n, v)]) n v' = d ++ [(n, v')].
Proof.
  induction d as [|[k u] d IH]; simpl.
  - by rewrite decide_True.
  - destruct (decide (k = n)); [done|]. intros Hg. by rewrite IH.
Qed.

(** One step on objects is one step on values. *)
Lemma obj_group_step_spec (h0 h : Heap) (d : list (string * nat)) (file : FileRecord) :
  has_field "name" file ->
  (forall r, r ∈ dom h0 -> h !! r = h0 !! r) ->
  Forall (fun r => (r ∉ dom h0) /\ (r ∈ dom h)) d.*2 ->
  NoDup d.*2 ->
  exists d' h',
    obj_group_step d h file = Ok (d', h')
    /\ group_step (deref_all h d) file = Ok (deref_all h' d')
    /\ (forall r, r ∈ dom h0 -> h' !! r = h0 !! r)
    /\ Forall (fun r => (r ∉ dom h0) /\ (r ∈ dom h')) d'.*2
    /\ NoDup d'.*2.
Proof.
  intros [n Hn] Hold Hrefs Hnd.
  unfold obj_group_step, group_step, getitem. rewrite Hn.
  rewrite dict_contains_deref_all. unfold dict_contains, dict_getitem.
  destruct (dict_get d n) as [r|] eqn:Hg; cbn [negb].
  - (* the name has a bucket *)
    rewrite Hg, dict_get_deref_all, Hg. cbn [fmap option_fmap option_map].
    pose proof (proj1 (Forall_forall _ _) Hrefs r (dict_get_Some_snd _ _ _ Hg))
      as [Hr0 Hr].
    exists d, (heap_append h r file). split; [done|]. split_and!.
    + f_equal. symmetry. apply deref_all_append; [done..|]. by apply elem_of_dom.
    + intros r' Hr'. unfold heap_append. rewrite lookup_alter_ne; [by apply Hold|].
      by intros ->.
    + eapply Forall_impl; [exact Hrefs|]. intros r' [? ?]. split; [done|].
      unfold heap_append. by rewrite dom_alter_L.
    + done.
  - (* a new bucket *)
    unfold alloc. set (r := fresh (dom h)).
    assert (r ∉ dom h) as Hfresh by apply is_fresh.
    assert (r ∉ dom h0) as Hfresh0.
    { intros Hin. apply Hfresh. apply elem_of_dom. rewrite Hold by done.
      by apply elem_of_dom. }
    assert (r ∉ d.*2) as Hunref.
    { intros Hin. by destruct (proj1 (Forall_forall _ _) Hrefs r Hin). }
    rewrite !dict_get_set_eq.
    exists (dict_set d n r), (heap_append (<[r := []]> h) r file).
    split; [done|]. split_and!.
    + f_equal.
      rewrite (dict_set_fresh (deref_all h d) n []), dict_set_app_last
        by (rewrite dict_get_deref_all, Hg; done).
      rewrite (dict_set_fresh d n r) by done.
      unfold deref_all at 2. rewrite fmap_app. fold (deref_all (heap_append (<[r:=[]]> h) r file) d).
      f_equal.
      * symmetry. apply deref_all_unreferenced. intros r' Hr'.
        unfold heap_append. rewrite lookup_alter_ne, lookup_insert_ne; [done|..];
          by intros ->.
      * simpl. unfold deref, heap_append.
        by rewrite lookup_alter_eq, lookup_insert_eq.
    + intros r' Hr'. unfold heap_append.
      rewrite lookup_alter_ne, lookup_insert_ne; [by apply Hold|..]; by intros ->.
    + rewrite (dict_set_fresh d n r) by done. rewrite fmap_app. apply Forall_app. split.
      * eapply Forall_impl; [exact Hrefs|]. intros r' [? ?]. split; [done|].
        unfold heap_append. rewrite dom_alter_L, dom_insert_L. set_solver.
      * constructor; [|done]. split; [done|].
        unfold heap_append. rewrite dom_alter_L, dom_insert_L. set_solver.
    + rewrite (dict_set_fresh d n r) by done. rewrite fmap_app.
      apply NoDup_app. split_and!; [done| |apply NoDup_singleton].
      intros r' Hr' ->%list_elem_of_singleton. done.
Qed.

(** The loop on objects, from any position of the input list: with one unit
    of fuel per remaining record and one more it returns, it computes what
    [group_loop] computes, and the objects that existed before the call are
    as they were. *)
Lemma obj_group_loop_spec (h0 : Heap) (files : nat) (l : list FileRecord) :
  h0 !! files = Some l ->
  forall (rest done : list FileRecord) (d : list (string * nat)) (h : Heap),
    l = done ++ rest ->
    Forall (has_field "name") rest ->
    (forall r, r ∈ dom h0 -> h !! r = h0 !! r) ->
    Forall (fun r => (r ∉ dom h0) /\ (r ∈ dom h)) d.*2 ->
    NoDup d.*2 ->
    exists d' h',
      obj_group_loop (S (length rest)) files (length done) d h = Some (Ok d', h')
      /\ group_loop rest (deref_all h d) = Ok (deref_all h' d')
      /\ (forall r, r ∈ dom h0 -> h' !! r = h0 !! r).
Proof.
  intros Hfiles rest.
  induction rest as [|file rest IH]; intros done d h Hl Hnames Hold Hrefs Hnd.
  - exists d, h. cbn [obj_group_loop length group_loop].
    assert (deref h files = l) as ->.
    { unfold deref. rewrite Hold by (by apply elem_of_dom). by rewrite Hfiles. }
    rewrite lookup_ge_None_2; [done|]. rewrite Hl, (right_id_L [] (++)). done.
  - apply Forall_cons in Hnames as [Hname Hnames].
    destruct (obj_group_step_spec h0 h d file Hname Hold Hrefs Hnd)
      as (d1 & h1 & Hstep & Hpure & Hold1 & Hrefs1 & Hnd1).
    destruct (IH (done ++ [file]) d1 h1) as (d' & h' & Hloop & Hpure' & Hold');
      try done.
    { by rewrite <- (assoc_L (++)). }
    exists d', h'. split_and!; [|by cbn [group_loop]; rewrite Hpure|done].
    cbn [obj_group_loop length].
    assert (deref h files = l) as ->.
    { unfold deref. rewrite Hold by (by apply elem_of_dom). by rewrite Hfiles. }
    rewrite Hl, list_lookup_middle by done. rewrite Hstep.
    rewrite length_app, Nat.add_1_r in Hloop. exact Hloop.
Qed.

Lemma deref_all_filter_multiple (h : Heap) (d : list (string * nat)) :
  deref_all h (obj_filter_multiple d h) = filter_multiple (deref_all h d).
Proof.
  unfold obj_filter_multiple, filter_multiple, deref_all.
  induction d as [|[n r] d IH]; [done|].
  rewrite fmap_cons, !filter_cons. simpl.
  destruct (decide (1 < length (deref h r))); [|done].
  by rewrite fmap_cons, IH.
Qed.

(** [find_duplicates] on objects returns what [find_duplicates] returns on
    the value of the input list, and changes no object that existed. *)
Lemma obj_find_duplicates_spec (h : Heap) (files : nat) (l : list FileRecord) :
  h !! files = Some l -> Forall (has_field "name") l ->
  exists dup h',
    obj_find_duplicates (S (length l)) files h = Some (Ok dup, h')
    /\ find_duplicates l = Ok (deref_all h' dup)
    /\ (forall r, r ∈ dom h -> h' !! r = h !! r).
Proof.
  intros Hfiles Hnames.
  destruct (obj_group_loop_spec h files l Hfiles l [] [] h)
    as (d & h' & Hloop & Hpure & Hold);
    try done; try apply NoDup_nil_2; try apply Forall_nil_2.
  exists (obj_filter_multiple d h'), h'. unfold obj_find_duplicates.
  cbn [length] in Hloop. rewrite Hloop. split_and!; [done| |done].
  unfold find_duplicates, group_by_name. cbn [deref_all fmap list_fmap] in Hpure.
  by rewrite Hpure, deref_all_filter_multiple.
Qed.

(** C9: [find_duplicates] returns only buckets of more than one record, one
    for each name that at least two input records carry and for no other
    name, each holding the records of its name in input order; and it has
    no side effect on its argument: the list object passed as [files], like
    every object that existed before the call, is unchanged when it
    returns. *)
Theorem find_duplicates_keeps_multiples_only
    (h : Heap) (files : nat) (l : list FileRecord) :
  h !! files = Some l -> Forall (has_field "name") l ->
  exists dup h' returned,
    obj_find_duplicates (S (length l)) files h = Some (Ok dup, h')
    /\ returned = deref_all h' dup
    /\ find_duplicates l = Ok returned
    /\ (forall n b, (n, b) ∈ returned -> 1 < length b /\ b = filter (named n) l)
    /\ (forall n, n ∈ returned.*1 <-> 2 <= length (filter (named n) l))
    /\ h' !! files = Some l
    /\ (forall r, r ∈ dom h -> h' !! r = h !! r).
Proof.
  intros Hfiles Hnames.
  destruct (obj_find_duplicates_spec h files l Hfiles Hnames)
    as (dup & h' & Hrun & Hpure & Hold).
  destruct (find_duplicates_spec l Hnames) as (B & HB & _ & Hb).
  rewrite Hpure in HB. injection HB as <-.
  exists dup, h', (deref_all h' dup). split_and!; try done.
  - intros n b Hin. apply Hb in Hin as [-> ?]. done.
  - intros n. rewrite list_elem_of_fmap. split.
    + intros ([n' b] & -> & Hin). apply Hb in Hin as [-> ?]. simpl. lia.
    + intros Hlen. exists (n, filter (named n) l). split; [done|].
      apply Hb. split; [done|lia].
  - rewrite Hold by (by apply elem_of_dom). done.
Qed.

Lemma find_duplicates_keeps_multiples_only_witness :
  exists dup h' returned,
    obj_find_duplicates 4 0 sample_heap = Some (Ok dup, h')
    /\ returned = deref_all h' dup
    /\ find_duplicates [sample_A; sample_B; sample_C] = Ok returned
    /\ (forall n b, (n, b) ∈ returned ->
          1 < length b /\ b = filter (named n) [sample_A; sample_B; sample_C])
    /\ (forall n, n ∈ returned.*1 <->
          2 <= length (filter (named n) [sample_A; sample_B; sample_C]))
    /\ h' !! 0 = Some [sample_A; sample_B; sample_C]
    /\ (forall r, r ∈ dom sample_heap -> h' !! r = sample_heap !! r).
Proof.
  apply (find_duplicates_keeps_multiples_only
           sample_heap 0 [sample_A; sample_B; sample_C]).
  - compute_done.
  - has_fields.
Defined.

Example find_duplicates_sample :
  find_duplicates [sample_A; sample_B; sample_C] = Ok [("x.pdf", [sample_A; sample_B])].
Proof. compute_done. Qed.

(** With less fuel than records the loop on objects does not finish. *)
Example obj_find_duplicates_out_of_fuel :
  obj_find_duplicates 3 0 sample_heap = None.
Proof. compute_done. Qed.

(** ** A first run against a folder, then a second *)

Lemma filter_all {A} (P : A -> Prop) `{!forall x, Decision (P x)} (l : list A) :
  Forall P l -> filter P l = l.
Proof.
  induction 1 as [|x l Hx _ IH]; [done|].
  by rewrite filter_cons_True, IH.
Qed.

Lemma folder_delete_store (store : list FileRecord) (file_id : string) :
  (folder_delete store file_id).2 = survivors [file_id] store.
Proof.
  unfold folder_delete, survivors.
  assert (forall f : FileRecord,
            f !! "id" ≠ Some file_id <-> f !! "id" ∉ (Some <$> [file_id])) as Hiff.
  { intros f. rewrite list_fmap_singleton, list_elem_of_singleton. done. }
  destruct (decide _) as [|Hno]; simpl.
  - by apply list_filter_iff.
  - symmetry. apply filter_all. apply Forall_forall. intros f Hf.
    apply Hiff. intros Hid. apply Hno. apply Exists_exists. eauto.
Qed.

Lemma folder_after_requests (store : list FileRecord) (ids : list string) :
  after_requests store ids = survivors ids store.
Proof.
  revert store. induction ids as [|id ids IH]; intros store.
  - simpl. unfold survivors. symmetry. apply filter_all, Forall_forall.
    intros f _. simpl. apply not_elem_of_nil.
  - unfold after_requests. cbn [foldl]. fold (after_requests (drive_delete store id).2 ids).
    rewrite IH. change (drive_delete store id) with (folder_delete store id).
    rewrite folder_delete_store. unfold survivors. rewrite list_filter_filter.
    apply list_filter_iff. intros f. cbv beta.
    rewrite list_fmap_singleton, list_elem_of_singleton, fmap_cons, not_elem_of_cons.
    tauto.
Qed.

Lemma file_ids_elem (l : list FileRecord) (id : string) :
  id ∈ file_ids l <-> exists f, f ∈ l /\ f !! "id" = Some id.
Proof. unfold file_ids. apply list_elem_of_omap. Qed.

(** In a folder with one record per id, records are told apart by their id. *)
Lemma same_id_same_record (store : list FileRecord) (f g : FileRecord) (id : string) :
  NoDup (file_ids store) -> f ∈ store -> g ∈ store ->
  f !! "id" = Some id -> g !! "id" = Some id -> f = g.
Proof.
  induction store as [|x store IH]; intros Hnd Hf Hg Hfid Hgid.
  - by apply elem_of_nil in Hf.
  - unfold file_ids in Hnd. cbn [omap list_omap] in Hnd.
    destruct (x !! "id") as [xid|] eqn:Hx.
    + apply NoDup_cons in Hnd as [Hfresh Hnd].
      apply elem_of_cons in Hf as [->|Hf]; apply elem_of_cons in Hg as [->|Hg];
        try done.
      * exfalso. apply Hfresh. apply file_ids_elem. exists g. split; [done|congruence].
      * exfalso. apply Hfresh. apply file_ids_elem. exists f. split; [done|congruence].
      * by apply IH.
    + apply elem_of_cons in Hf as [->|Hf]; [congruence|].
      apply elem_of_cons in Hg as [->|Hg]; [congruence|]. by apply IH.
Qed.

Lemma unique_ids_NoDup (store : list FileRecord) :
  Forall (has_field "id") store -> NoDup (file_ids store) -> NoDup store.
Proof.
  induction 1 as [|f store [id Hid] _ IH]; [constructor|].
  rewrite (file_ids_cons f id) by done. intros [Hfresh Hnd]%NoDup_cons.
  apply NoDup_cons. split; [|by apply IH].
  intros Hin. apply Hfresh. apply file_ids_elem. eauto.
Qed.

(** A run that deletes, against a folder that really deletes, and the
    listing a second run would get: no duplicates are left in it, and with
    one record per id every keep record is still there. *)
Lemma folder_rerun_finds_no_duplicates
    (store : list FileRecord) (folder_id : string) (w : World (list FileRecord)) :
  drive w = store ->
  Forall (has_field "name") store -> Forall (has_field "id") store ->
  exists plans w',
    build_plan store = Ok plans
    /\ cleanup_duplicates folder_id false w = (Ok tt, w')
    /\ drive w' = survivors (file_ids (planned_deletions plans)) store
    /\ find_duplicates (listed_files (drive w') folder_id) = Ok []
    /\ (NoDup (file_ids store) -> forall p, p ∈ plans -> keep p ∈ drive w').
Proof.
  intros Hstore Hnames Hids.
  assert (forall g : list FileRecord, listed_files g folder_id = g) as Hlisted by done.
  destruct (cleanup_duplicates_spec folder_id false w)
    as (plans & w' & Hplans & Hrun & _ & Hdrive & _).
  { by rewrite Hlisted, Hstore. }
  { by rewrite Hlisted, Hstore. }
  rewrite Hlisted, Hstore in Hplans. rewrite Hstore, folder_after_requests in Hdrive.
  exists plans, w'. split_and!; try done.
  - rewrite Hlisted, Hdrive.
    assert (survivors (file_ids (planned_deletions plans)) store ⊆+ store) as Hsub.
    { apply sublist_submseteq, sublist_filter; apply _. }
    apply find_duplicates_none.
    + apply Forall_forall. intros f Hf.
      apply (proj1 (Forall_forall _ _) Hnames). by eapply elem_of_submseteq.
    + intros n. eapply at_most_one_left; [exact Hplans|exact Hsub|].
      intros f Hf [Hsurv _]%list_elem_of_filter.
      pose proof (planned_deletions_listed _ _ _ Hplans Hf) as Hin.
      destruct (proj1 (Forall_forall _ _) Hids f Hin) as [id Hid].
      apply Hsurv. rewrite Hid. apply list_elem_of_fmap. exists id. split; [done|].
      apply file_ids_elem. eauto.
  - intros Hnd p Hp. rewrite Hdrive.
    destruct (build_plan_sorted _ _ _ Hplans Hp) as [Hs _].
    assert (keep p ∈ filter (named (plan_name p)) store) as Hk.
    { rewrite <- (sort_desc_perm mtime_key), Hs. apply list_elem_of_here. }
    apply list_elem_of_filter in Hk as [Hname Hk].
    apply list_elem_of_filter. split; [|done].
    intros (id & Hkid & Hin)%list_elem_of_fmap.
    apply file_ids_elem in Hin as (f & Hf & Hfid).
    apply planned_deletions_elem in Hf as (q & Hq & Hfq).
    pose proof (planned_deletions_listed store plans f Hplans) as Hfstore.
    assert (f = keep p) as ->.
    { eapply same_id_same_record; [exact Hnd| |exact Hk|exact Hfid|done].
      apply Hfstore, planned_deletions_elem. eauto. }
    destruct (build_plan_sorted _ _ _ Hplans Hq) as [Hsq _].
    assert (plan_name q = plan_name p) as Hsame.
    { assert (keep p ∈ filter (named (plan_name q)) store) as Hkq.
      { rewrite <- (sort_desc_perm mtime_key), Hsq. by apply list_elem_of_further. }
      apply list_elem_of_filter in Hkq as [Hnq _]. unfold named in *. congruence. }
    rewrite Hsame, Hs in Hsq. injection Hsq as _ Hdel. rewrite <- Hdel in Hfq.
    assert (NoDup (keep p :: to_delete p)) as Hndp.
    { rewrite <- Hs, sort_desc_perm. apply NoDup_filter.
      by apply unique_ids_NoDup. }
    by apply NoDup_cons in Hndp as [? _].
Qed.

Example folder_rerun_sample :
  drive (cleanup_duplicates "F" false
           (start [sample_A; sample_B; sample_C; sample_X; sample_Y])).2
  = [sample_B; sample_C; sample_X].
Proof. compute_done. Qed.

(** ** Listing a folder *)

Lemma fetch_pages_ok (pages : listing) (results : list FileRecord) :
  listing_fails pages = false ->
  fetch_pages pages results = Ok (results ++ listing_files pages).
Proof.
  revert results. induction pages as [files|files rest IH|]; intros results; simpl.
  - done.
  - intros Hrest. rewrite IH by done. by rewrite <- (assoc_L (++)).
  - done.
Qed.

Lemma fetch_pages_fails (pages : listing) (results : list FileRecord) :
  listing_fails pages = true -> fetch_pages pages results = Raise HttpError.
Proof.
  revert results. induction pages as [files|files rest IH|]; intros results; simpl.
  - done.
  - apply IH.
  - done.
Qed.

(** X1: when no request of the listing fails, [list_files_in_folder] returns
    the files of all pages in the order served, pages without a [files]
    field counting for nothing; it prints nothing and changes nothing. *)
Theorem list_files_in_folder_flattens_pages
    {G : Type} `{Drive G} (folder_id : string) (w : World G) :
  listing_fails (drive_list (drive w) folder_id) = false ->
  list_files_in_folder folder_id w
  = (Ok (listing_files (drive_list (drive w) folder_id)), w).
Proof.
  intros Hok. unfold list_files_in_folder. by rewrite fetch_pages_ok.
Qed.

(** X2: when a request of the listing fails, on whatever page,
    [list_files_in_folder] does not raise: it prints the error and returns
    the empty list, dropping the files of the pages already fetched. *)
Theorem list_files_in_folder_failure_returns_nothing
    {G : Type} `{Drive G} (folder_id : string) (w : World G) :
  listing_fails (drive_list (drive w) folder_id) = true ->
  list_files_in_folder folder_id w
  = (Ok [], mkWorld (drive w) (stdout w ++ [LErrorListing]) (delete_calls w)).
Proof.
  intros Hfails. unfold list_files_in_folder. by rewrite fetch_pages_fails.
Qed.

Lemma list_files_in_folder_flattens_pages_witness :
  list_files_in_folder "F" (start three_pages)
  = (Ok [sample_A; sample_B; sample_C], start three_pages).
Proof.
  exact (list_files_in_folder_flattens_pages "F" (start three_pages) eq_refl).
Defined.

Lemma list_files_in_folder_failure_returns_nothing_witness :
  list_files_in_folder "F" (start broken_listing)
  = (Ok [], mkWorld broken_listing [LErrorListing] []).
Proof.
  exact (list_files_in_folder_failure_returns_nothing
           "F" (start broken_listing) eq_refl).
Defined.

Lemma listed_files_ok {G : Type} `{Drive G} (g : G) (folder_id : string) :
  listing_fails (drive_list g folder_id) = false ->
  listed_files g folder_id = listing_files (drive_list g folder_id).
Proof. intros Hok. unfold listed_files. by rewrite fetch_pages_ok. Qed.

Lemma listed_files_fails {G : Type} `{Drive G} (g : G) (folder_id : string) :
  listing_fails (drive_list g folder_id) = true -> listed_files g folder_id = [].
Proof. intros Hf. unfold listed_files. by rewrite fetch_pages_fails. Qed.

(** ** Runs that delete nothing *)

(** X3: when the listing fails, [cleanup_duplicates] goes on as if the
    folder were empty: it reports the error, zero files and no duplicates,
    returns normally and sends no delete request, also with [dry_run]
    false. *)
Theorem cleanup_duplicates_on_failed_listing
    {G : Type} `{Drive G} (folder_id : string) (dry_run : bool) (w : World G) :
  listing_fails (drive_list (drive w) folder_id) = true ->
  cleanup_duplicates folder_id dry_run w
  = (Ok tt,
     mkWorld (drive w)
       (stdout w ++ [LScanning folder_id; LErrorListing; LFoundFiles 0; LNoDuplicates])
       (delete_calls w)).
Proof.
  intros Hfails. unfold cleanup_duplicates. rewrite bind_print.
  unfold bind at 1, list_files_in_folder. cbn [drive].
  rewrite fetch_pages_fails by done. rewrite bind_print. cbn [ret].
  rewrite bind_print. cbn [drive stdout delete_calls].
  change (find_duplicates []) with (@Ok Buckets []). rewrite bind_lift_ok.
  unfold print. cbn [drive stdout delete_calls].
  by rewrite <- !(assoc_L (++)).
Qed.

Lemma cleanup_duplicates_on_failed_listing_witness :
  cleanup_duplicates "F" false (start broken_listing)
  = (Ok tt,
     mkWorld broken_listing
       [LScanning "F"; LErrorListing; LFoundFiles 0; LNoDuplicates] []).
Proof.
  exact (cleanup_duplicates_on_failed_listing "F" false (start broken_listing) eq_refl).
Defined.

(** X4: when no name occurs twice in the listing, [cleanup_duplicates]
    reports the number of files and that there are no duplicates, prints no
    summary, and sends no delete request, in either mode. *)
Theorem cleanup_duplicates_without_duplicates
    {G : Type} `{Drive G} (folder_id : string) (dry_run : bool) (w : World G) :
  listing_fails (drive_list (drive w) folder_id) = false ->
  Forall (has_field "name") (listed_files (drive w) folder_id) ->
  (forall n, length (filter (named n) (listed_files (drive w) folder_id)) <= 1) ->
  cleanup_duplicates folder_id dry_run w
  = (Ok tt,
     mkWorld (drive w)
       (stdout w ++ [LScanning folder_id;
                     LFoundFiles (length (listed_files (drive w) folder_id));
                     LNoDuplicates])
       (delete_calls w)).
Proof.
  intros Hok Hnames Hone. unfold cleanup_duplicates. rewrite bind_print.
  unfold bind at 1, list_files_in_folder. cbn [drive].
  rewrite fetch_pages_ok by done. rewrite <- listed_files_ok by done.
  change ([] ++ listed_files (drive w) folder_id)
    with (listed_files (drive w) folder_id).
  rewrite bind_print, (find_duplicates_none _ Hnames Hone), bind_lift_ok.
  unfold print. cbn [drive stdout delete_calls].
  by rewrite <- !(assoc_L (++)).
Qed.

Lemma cleanup_duplicates_without_duplicates_witness :
  cleanup_duplicates "F" false (start (mkScripted [sample_B; sample_C] []))
  = (Ok tt,
     mkWorld (mkScripted [sample_B; sample_C] [])
       [LScanning "F"; LFoundFiles 2; LNoDuplicates] []).
Proof.
  rewrite (cleanup_duplicates_without_duplicates
             "F" false (start (mkScripted [sample_B; sample_C] []))).
  - done.
  - done.
  - has_fields.
  - intros n. change (listed_files _ _) with [sample_B; sample_C].
    rewrite !filter_cons, filter_nil.
    destruct (decide (named n sample_B)) as [Hb|], (decide (named n sample_C)) as [Hc|];
      simpl; try lia.
    exfalso. unfold named in Hb, Hc. vm_compute in Hb, Hc. congruence.
Defined.

(** X5: a listed record without a name stops [cleanup_duplicates] before
    anything is deleted: the run raises [KeyError('name')] right after
    counting the files, and no delete request is sent, also with [dry_run]
    false. *)
Theorem cleanup_duplicates_nameless_record
    {G : Type} `{Drive G} (folder_id : string) (dry_run : bool) (w : World G) :
  Exists (fun f => f !! "name" = None) (listed_files (drive w) folder_id) ->
  cleanup_duplicates folder_id dry_run w
  = (Raise (KeyError "name"),
     mkWorld (drive w)
       (stdout w ++ [LScanning folder_id;
                     LFoundFiles (length (listed_files (drive w) folder_id))])
       (delete_calls w)).
Proof.
  intros Hex.
  assert (listing_fails (drive_list (drive w) folder_id) = false) as Hok.
  { destruct (listing_fails _) eqn:Hf; [|done].
    rewrite listed_files_fails in Hex by done. by apply Exists_nil in Hex. }
  unfold cleanup_duplicates. rewrite bind_print.
  unfold bind at 1, list_files_in_folder. cbn [drive].
  rewrite fetch_pages_ok by done. rewrite <- listed_files_ok by done.
  change ([] ++ listed_files (drive w) folder_id)
    with (listed_files (drive w) folder_id).
  rewrite bind_print. unfold bind, lift, find_duplicates, group_by_name.
  rewrite group_loop_raises by done. cbn [drive stdout delete_calls].
  by rewrite <- !(assoc_L (++)).
Qed.

Lemma cleanup_duplicates_nameless_record_witness :
  cleanup_duplicates "F" false
    (start (mkScripted [sample_A; sample_B; sample_nameless] []))
  = (Raise (KeyError "name"),
     mkWorld (mkScripted [sample_A; sample_B; sample_nameless] [])
       [LScanning "F"; LFoundFiles 3] []).
Proof.
  rewrite (cleanup_duplicates_nameless_record
             "F" false (start (mkScripted [sample_A; sample_B; sample_nameless] []))).
  - done.
  - compute_done.
Defined.

(** ** What the console shows of a run *)

Lemma would_delete_ids_snoc (out : list line) (l : line) :
  would_delete_ids (out ++ [l])
  = would_delete_ids out ++ match l with LWouldDelete id _ => [id] | _ => [] end.
Proof. unfold would_delete_ids. rewrite omap_app. by destruct l. Qed.

Lemma reported_outcomes_snoc (out : list line) (l : line) :
  reported_outcomes (out ++ [l])
  = reported_outcomes out
    ++ match l with
       | LDeleted _ _ => [Succeeds]
       | LFailedToDelete _ => [RaisesHttpError]
       | _ => []
       end.
Proof. unfold reported_outcomes. rewrite omap_app. by destruct l. Qed.

Ltac console :=
  cbn [stdout delete_calls drive];
  rewrite ?would_delete_ids_snoc, ?reported_outcomes_snoc;
  cbv iota; rewrite ?(right_id_L [] (++)).

Section console_facts.
Context {G : Type} `{Drive G}.

Lemma delete_loop_console (dry_run : bool) (name : string)
    (to_delete : list FileRecord) (total : nat) (w : World G) :
  Forall (has_field "id") to_delete ->
  exists w' new,
    delete_loop dry_run name to_delete total w = (Ok (total + length to_delete), w')
    /\ delete_calls w' = delete_calls w ++ new
    /\ reported_outcomes (stdout w') = reported_outcomes (stdout w) ++ new.*2
    /\ would_delete_ids (stdout w')
       = would_delete_ids (stdout w) ++ (if dry_run then file_ids to_delete else []).
Proof.
  intros Hall. revert total w.
  induction Hall as [|file rest [id Hid] _ IH]; intros total w.
  - exists w, []. simpl. rewrite Nat.add_0_r, !(right_id_L [] (++)).
    split_and!; try done. by destruct dry_run; rewrite (right_id_L [] (++)).
  - cbn [delete_loop]. rewrite (file_ids_cons file id) by done.
    unfold getitem. rewrite Hid, bind_lift_ok.
    replace (total + length (file :: rest)) with (S total + length rest)
      by (simpl; lia).
    destruct dry_run.
    + rewrite bind_print.
      edestruct (IH (S total)) as (w' & new & Hrun & Hcalls & Hrep & Hwould).
      exists w', new. split; [exact Hrun|].
      revert Hcalls Hrep Hwould. console. intros -> -> ->.
      split_and!; try done. by rewrite <- (assoc_L (++)).
    + rewrite bind_assoc, bind_print. unfold delete_file.
      rewrite !bind_assoc. unfold bind at 1, request_delete.
      cbn [drive stdout delete_calls].
      destruct (drive_delete (drive w) id) as [[] g];
        cbn [bind ret print drive stdout delete_calls];
        edestruct (IH (S total)) as (w' & new & Hrun & Hcalls & Hrep & Hwould);
        exists w'; eexists (_ :: new); (split; [exact Hrun|]);
        revert Hcalls Hrep Hwould; console; intros -> -> ->;
        (split_and!; [by rewrite <- (assoc_L (++))
                     |by rewrite fmap_cons, <- (assoc_L (++))
                     |done]).
Qed.
End console_facts.

Lemma duplicates_well_formed (files : list FileRecord) (dup : Buckets) :
  find_duplicates files = Ok dup -> Forall (has_field "id") files ->
  Forall (fun item => item.2 ≠ [] /\ Forall (has_field "id") item.2) dup.
Proof.
  intros Hfd Hids. apply Forall_forall. intros [n b] Hin.
  destruct (find_duplicates_elem _ _ _ _ Hfd Hin) as [-> Hlen]. simpl. split.
  - intros Hnil. rewrite Hnil in Hlen. simpl in Hlen. lia.
  - apply Forall_forall. intros f [_ Hf]%list_elem_of_filter.
    by apply (proj1 (Forall_forall _ _) Hids).
Qed.

Section console_runs.
Context {G : Type} `{Drive G}.

Lemma groups_loop_console (dry_run : bool) (duplicates : Buckets)
    (total : nat) (w : World G) :
  Forall (fun item => item.2 ≠ [] /\ Forall (has_field "id") item.2) duplicates ->
  exists plans w' new,
    plan_groups duplicates = Ok plans
    /\ groups_loop dry_run duplicates total w
       = (Ok (total + length (planned_deletions plans)), w')
    /\ delete_calls w' = delete_calls w ++ new
    /\ reported_outcomes (stdout w') = reported_outcomes (stdout w) ++ new.*2
    /\ would_delete_ids (stdout w')
       = would_delete_ids (stdout w)
         ++ (if dry_run then file_ids (planned_deletions plans) else []).
Proof.
  intros Hall. revert total w.
  induction Hall as [|[name files_list] rest [Hne Hids] _ IH]; intros total w.
  - exists [], w, []. simpl. rewrite Nat.add_0_r, !(right_id_L [] (++)).
    split_and!; try done. by destruct dry_run; rewrite (right_id_L [] (++)).
  - simpl in Hne, Hids.
    destruct (plan_group_ok name files_list Hne) as (p & Hp & _ & Hs).
    assert (Forall (has_field "id") (keep p :: to_delete p)) as Hids'.
    { rewrite <- Hs. by rewrite sort_desc_perm. }
    apply Forall_cons in Hids' as [[kid Hkid] Hdel].
    cbn [groups_loop plan_groups]. rewrite Hp, bind_print, bind_lift_ok.
    unfold getitem. rewrite Hkid, bind_lift_ok, bind_print.
    edestruct (delete_loop_console dry_run name (to_delete p) total)
      as (w1 & new1 & Hrun & Hc1 & Hr1 & Hw1); [exact Hdel|].
    erewrite bind_ok by exact Hrun.
    destruct (IH (total + length (to_delete p)) w1)
      as (plans & w' & new & -> & Hloop & Hc & Hr & Hw).
    exists (p :: plans), w', (new1 ++ new). split; [done|].
    rewrite planned_deletions_cons, length_app, Nat.add_assoc. split; [done|].
    rewrite Hc, Hc1, Hr, Hr1, Hw, Hw1. console.
    rewrite fmap_app, file_ids_app, <- !(assoc_L (++)).
    split_and!; try done. destruct dry_run; [done|].
    by rewrite !(right_id_L [] (++)).
Qed.

Lemma cleanup_duplicates_console (folder_id : string) (dry_run : bool) (w : World G) :
  Forall (has_field "name") (listed_files (drive w) folder_id) ->
  Forall (has_field "id") (listed_files (drive w) folder_id) ->
  exists plans w' new,
    build_plan (listed_files (drive w) folder_id) = Ok plans
    /\ cleanup_duplicates folder_id dry_run w = (Ok tt, w')
    /\ delete_calls w' = delete_calls w ++ new
    /\ reported_outcomes (stdout w') = reported_outcomes (stdout w) ++ new.*2
    /\ would_delete_ids (stdout w')
       = would_delete_ids (stdout w)
         ++ (if dry_run then file_ids (planned_deletions plans) else []).
Proof.
  intros Hnames Hids.
  destruct (find_duplicates_spec _ Hnames) as (dup & Hfd & _ & _).
  pose proof (duplicates_well_formed _ _ Hfd Hids) as Hdup.
  unfold cleanup_duplicates. rewrite bind_print.
  unfold bind at 1, list_files_in_folder. cbn [drive].
  unfold build_plan. rewrite Hfd.
  assert (exists w0 : World G,
    (match fetch_pages (drive_list (drive w) folder_id) [] with
     | Ok results =>
         (Ok results, mkWorld (drive w) (stdout w ++ [LScanning folder_id]) (delete_calls w))
     | Raise HttpError =>
         (print LErrorListing;;; ret [])
           (mkWorld (drive w) (stdout w ++ [LScanning folder_id]) (delete_calls w))
     | Raise e =>
         (Raise e, mkWorld (drive w) (stdout w ++ [LScanning folder_id]) (delete_calls w))
     end) = (Ok (listed_files (drive w) folder_id), w0)
    /\ delete_calls w0 = delete_calls w
    /\ reported_outcomes (stdout w0) = reported_outcomes (stdout w)
    /\ would_delete_ids (stdout w0) = would_delete_ids (stdout w))
    as (w0 & -> & Hc0 & Hr0 & Hw0).
  { unfold listed_files. destruct (fetch_pages _ _) as [results|e] eqn:Hf.
    - eexists. split; [done|]. by console.
    - apply fetch_pages_raises in Hf as ->. eexists. split; [done|].
      cbn [bind print ret]. by console. }
  rewrite bind_print, Hfd, bind_lift_ok.
  destruct dup as [|item dup].
  - exists [], (mkWorld (drive w0)
                  ((stdout w0 ++ [LFoundFiles (length (listed_files (drive w) folder_id))])
                   ++ [LNoDuplicates]) (delete_calls w0)), [].
    change (file_ids (planned_deletions [])) with (@nil string).
    split_and!; try done; console; rewrite ?Hc0, ?Hr0, ?Hw0;
      rewrite ?fmap_nil, ?(right_id_L [] (++)); try done.
    by destruct dry_run; rewrite (right_id_L [] (++)).
  - rewrite bind_print.
    edestruct (groups_loop_console dry_run (item :: dup) 0)
      as (plans & w2 & new & Hplans & Hloop & Hc2 & Hr2 & Hw2); [exact Hdup|].
    erewrite bind_ok by exact Hloop. rewrite !bind_print.
    revert Hc2 Hr2 Hw2. console. rewrite Hc0, Hr0, Hw0. intros Hc2 Hr2 Hw2.
    exists plans.
    destruct dry_run; (eexists; exists new; split; [exact Hplans|]).
    + rewrite bind_print. split; [reflexivity|]. console. by split_and!.
    + split; [reflexivity|]. console.
      rewrite (right_id_L [] (++)) in Hw2. by split_and!.
Qed.
End console_runs.

(** X6: a dry run shows what a run that deletes would do: on the same
    listing, the ids of its [Would delete] lines are, in order, the ids that
    the run with [dry_run] false sends to the service. *)
Theorem dry_run_previews_the_requests
    {G : Type} `{Drive G} (folder_id : string) (w : World G) :
  Forall (has_field "name") (listed_files (drive w) folder_id) ->
  Forall (has_field "id") (listed_files (drive w) folder_id) ->
  exists ids,
    would_delete_ids (stdout (cleanup_duplicates folder_id true w).2)
    = would_delete_ids (stdout w) ++ ids
    /\ (delete_calls (cleanup_duplicates folder_id false w).2).*1
       = (delete_calls w).*1 ++ ids.
Proof.
  intros Hnames Hids.
  destruct (cleanup_duplicates_console folder_id true w Hnames Hids)
    as (plans & w1 & new & Hplans & Hdry & _ & _ & Hwould).
  destruct (cleanup_duplicates_spec folder_id false w Hnames Hids)
    as (plans' & w2 & Hplans' & Hrun & Hcalls & _).
  rewrite Hplans in Hplans'. injection Hplans' as <-.
  exists (file_ids (planned_deletions plans)). by rewrite Hdry, Hrun.
Qed.

Lemma dry_run_previews_the_requests_witness :
  exists ids,
    would_delete_ids (stdout (cleanup_duplicates "F" true failing_second).2)
    = would_delete_ids (stdout failing_second) ++ ids
    /\ (delete_calls (cleanup_duplicates "F" false failing_second).2).*1
       = (delete_calls failing_second).*1 ++ ids.
Proof.
  apply (dry_run_previews_the_requests "F" failing_second); has_fields.
Defined.

(** X7: a run that deletes reports every request as it is answered: the
    [Deleted] and [Failed to delete] lines it prints are, in order, the
    answers of the service to the delete requests it sent, so a failed
    request always leaves its line on the console. *)
Theorem every_request_is_reported
    {G : Type} `{Drive G} (folder_id : string) (w : World G) :
  Forall (has_field "name") (listed_files (drive w) folder_id) ->
  Forall (has_field "id") (listed_files (drive w) folder_id) ->
  exists new,
    delete_calls (cleanup_duplicates folder_id false w).2 = delete_calls w ++ new
    /\ reported_outcomes (stdout (cleanup_duplicates folder_id false w).2)
       = reported_outcomes (stdout w) ++ new.*2.
Proof.
  intros Hnames Hids.
  destruct (cleanup_duplicates_console folder_id false w Hnames Hids)
    as (plans & w1 & new & _ & Hrun & Hcalls & Hrep & _).
  exists new. by rewrite Hrun.
Qed.

Lemma every_request_is_reported_witness :
  exists new,
    delete_calls (cleanup_duplicates "F" false failing_second).2
    = delete_calls failing_second ++ new
    /\ reported_outcomes (stdout (cleanup_duplicates "F" false failing_second).2)
       = reported_outcomes (stdout failing_second) ++ new.*2.
Proof.
  apply (every_request_is_reported "F" failing_second); has_fields.
Defined.

Example failure_is_reported_sample :
  reported_outcomes (stdout (cleanup_duplicates "F" false failing_second).2)
  = [Succeeds; RaisesHttpError; Succeeds].
Proof. compute_done. Qed.

(** ** The newest copy stays *)

Lemma keep_id_not_planned
    (files : list FileRecord) (plans : list Plan) (p : Plan) (kid : string) :
  NoDup (file_ids files) -> Forall (has_field "id") files ->
  build_plan files = Ok plans -> p ∈ plans -> keep p !! "id" = Some kid ->
  kid ∉ file_ids (planned_deletions plans).
Proof.
  intros Hnd Hids Hplans Hp Hkid (f & Hf & Hfid)%file_ids_elem.
  destruct (build_plan_sorted _ _ _ Hplans Hp) as [Hs _].
  assert (keep p ∈ filter (named (plan_name p)) files) as Hk.
  { rewrite <- (sort_desc_perm mtime_key), Hs. apply list_elem_of_here. }
  apply list_elem_of_filter in Hk as [Hname Hk].
  pose proof (planned_deletions_listed files plans f Hplans Hf) as Hfin.
  apply planned_deletions_elem in Hf as (q & Hq & Hfq).
  assert (f = keep p) as -> by (by eapply same_id_same_record).
  destruct (build_plan_sorted _ _ _ Hplans Hq) as [Hsq _].
  assert (plan_name q = plan_name p) as Hsame.
  { assert (keep p ∈ filter (named (plan_name q)) files) as Hkq.
    { rewrite <- (sort_desc_perm mtime_key), Hsq. by apply list_elem_of_further. }
    apply list_elem_of_filter in Hkq as [Hnq _]. unfold named in *. congruence. }
  rewrite Hsame, Hs in Hsq. injection Hsq as _ Hdel. rewrite <- Hdel in Hfq.
  assert (NoDup (keep p :: to_delete p)) as Hndp.
  { rewrite <- Hs, sort_desc_perm. apply NoDup_filter. by apply unique_ids_NoDup. }
  by apply NoDup_cons in Hndp as [? _].
Qed.

(** X8: the copy that is kept is never deleted.  When the listed records
    have distinct ids, no delete request of a run carries the id of the keep
    record of any group, whatever the service answers. *)
Theorem keep_record_is_never_requested
    {G : Type} `{Drive G} (folder_id : string) (w : World G) :
  Forall (has_field "name") (listed_files (drive w) folder_id) ->
  Forall (has_field "id") (listed_files (drive w) folder_id) ->
  NoDup (file_ids (listed_files (drive w) folder_id)) ->
  exists plans sent,
    build_plan (listed_files (drive w) folder_id) = Ok plans
    /\ (delete_calls (cleanup_duplicates folder_id false w).2).*1
       = (delete_calls w).*1 ++ sent
    /\ forall p kid, p ∈ plans -> keep p !! "id" = Some kid -> kid ∉ sent.
Proof.
  intros Hnames Hids Hnd.
  destruct (cleanup_duplicates_spec folder_id false w Hnames Hids)
    as (plans & w' & Hplans & Hrun & Hcalls & _).
  exists plans, (file_ids (planned_deletions plans)). rewrite Hrun.
  split_and!; [done..|]. intros p kid Hp Hkid.
  by eapply keep_id_not_planned.
Qed.

Lemma keep_record_is_never_requested_witness :
  exists plans sent,
    build_plan (listed_files (drive failing_second) "F") = Ok plans
    /\ (delete_calls (cleanup_duplicates "F" false failing_second).2).*1
       = (delete_calls failing_second).*1 ++ sent
    /\ forall p kid, p ∈ plans -> keep p !! "id" = Some kid -> kid ∉ sent.
Proof.
  apply (keep_record_is_never_requested "F" failing_second); compute_done.
Defined.

(** X9: a run that deletes, against a folder that deletes by id and whose
    records have distinct ids, leaves exactly one file of every name that
    was in the folder: no name is lost and no name stays duplicated. *)
Theorem folder_keeps_one_file_per_name
    (store : list FileRecord) (folder_id : string) (w : World (list FileRecord))
    (n : string) :
  drive w = store ->
  Forall (has_field "name") store -> Forall (has_field "id") store ->
  NoDup (file_ids store) ->
  Exists (named n) store ->
  length (filter (named n) (drive (cleanup_duplicates folder_id false w).2)) = 1.
Proof.
  intros Hstore Hnames Hids Hnd Hex.
  destruct (folder_rerun_finds_no_duplicates store folder_id w Hstore Hnames Hids)
    as (plans & w' & Hplans & Hrun & Hdrive & _ & Hkeep).
  rewrite Hrun. cbn [snd].
  assert (drive w' ⊆+ store) as Hsub.
  { rewrite Hdrive. apply sublist_submseteq, sublist_filter; apply _. }
  assert (length (filter (named n) (drive w')) <= 1) as Hle.
  { eapply at_most_one_left; [exact Hplans|exact Hsub|].
    intros f Hf. rewrite Hdrive. intros [Hsurv _]%list_elem_of_filter.
    pose proof (planned_deletions_listed _ _ _ Hplans Hf) as Hin.
    destruct (proj1 (Forall_forall _ _) Hids f Hin) as [id Hid].
    apply Hsurv. rewrite Hid. apply list_elem_of_fmap. exists id. split; [done|].
    apply file_ids_elem. eauto. }
  assert (exists f, f ∈ filter (named n) (drive w')) as [f Hf].
  { destruct (decide (1 < length (filter (named n) store))) as [Hdup|Hsingle].
    - destruct (build_plan_covers store plans n Hplans Hdup) as (p & Hp & Hperm).
      exists (keep p). apply list_elem_of_filter. split; [|by apply Hkeep].
      assert (keep p ∈ filter (named n) store) as Hk
        by (rewrite <- Hperm; apply list_elem_of_here).
      by apply list_elem_of_filter in Hk as [? _].
    - apply Exists_exists in Hex as (f & Hfin & Hfn). exists f.
      apply list_elem_of_filter. split; [done|]. rewrite Hdrive.
      apply list_elem_of_filter. split; [|done].
      intros (id & Hfid & Hid)%list_elem_of_fmap.
      apply file_ids_elem in Hid as (g & Hg & Hgid).
      pose proof (planned_deletions_listed _ _ _ Hplans Hg) as Hgin.
      assert (g = f) as -> by (eapply same_id_same_record; eauto).
      apply planned_deletions_elem in Hg as (q & Hq & Hfq).
      destruct (build_plan_elem _ _ _ Hplans Hq) as [Hperm Hlen].
      assert (f ∈ filter (named (plan_name q)) store) as Hfq'.
      { rewrite <- Hperm. by apply list_elem_of_further. }
      apply list_elem_of_filter in Hfq' as [Hnq _].
      assert (plan_name q = n) as Heq by (unfold named in *; congruence).
      rewrite Heq in Hlen. done. }
  destruct (filter (named n) (drive w')) as [|x l]; [by apply elem_of_nil in Hf|].
  simpl in *. lia.
Qed.

Lemma folder_keeps_one_file_per_name_witness :
  length (filter (named "x.pdf")
            (drive (cleanup_duplicates "F" false
                      (start [sample_A; sample_B; sample_C; sample_D])).2)) = 1.
Proof.
  apply (folder_keeps_one_file_per_name
           [sample_A; sample_B; sample_C; sample_D] "F"
           (start [sample_A; sample_B; sample_C; sample_D]) "x.pdf");
    compute_done.
Defined.

(** ** When the script deletes *)

Section main_facts.
Context {G : Type} `{Drive G}.

Lemma quiet_authenticate (host : Host) (token_file : string) :
  quiet (authenticate (G:=G) host token_file).
Proof.
  intros w. destruct (authenticate_spec host token_file w)
    as (r & w' & -> & Hd & Hc & _). done.
Qed.

Lemma quiet_dry_run_then_completed (folder_id : string) :
  quiet (cleanup_duplicates (G:=G) folder_id true ;;;
         print LRule ;;; print LCompleted ;;; print LRule).
Proof.
  apply quiet_bind; [apply quiet_cleanup_duplicates_dry|]. intros _.
  repeat (apply quiet_bind; [apply quiet_print|]; intros _). apply quiet_print.
Qed.

Lemma main_sends_nothing (args : Args) (host : Host) (w : World G) :
  arg_delete args = false \/ typed host ≠ Ok "YES"
  \/ (authenticate host (arg_token args) w).1 ≠ Ok true ->
  drive (main args host w).2 = drive w
  /\ delete_calls (main args host w).2 = delete_calls w.
Proof.
  intros Hcase. unfold main. rewrite !bind_print.
  edestruct (authenticate_spec (G:=G) host (arg_token args))
    as (r & w1 & Hauth & Hd & Hc & Hany).
  destruct r as [b|e];
    [|erewrite bind_raises by exact Hauth; cbn [drive delete_calls] in Hd, Hc;
      by rewrite <- Hd, <- Hc].
  erewrite bind_ok by exact Hauth. cbn [drive delete_calls] in Hd, Hc.
  destruct b; cbn [negb]; [|by rewrite <- Hd, <- Hc].
  destruct Hcase as [Hdry|[Hno|Hfail]]; [| |by rewrite Hany in Hfail].
  - rewrite Hdry. cbn [negb]. rewrite !bind_print, bind_assoc, !bind_print.
    match goal with
    | |- context [(cleanup_duplicates ?f true ;;; ?k) ?w2] =>
        destruct (quiet_dry_run_then_completed f w2) as [-> ->]
    end.
    cbn [drive delete_calls]. by rewrite Hd, Hc.
  - rewrite !bind_print. destruct (arg_delete args); cbn [negb].
    + rewrite bind_lift_ok_ret. cbv beta. rewrite !bind_print.
      destruct (typed host) as [confirm|e];
        [|cbn [bind lift snd drive delete_calls]; by rewrite Hd, Hc].
      rewrite bind_lift_ok.
      assert (confirm ≠ "YES") as Hne by congruence.
      apply String.eqb_neq in Hne. rewrite Hne.
      cbn [negb print snd drive delete_calls]. by rewrite Hd, Hc.
    + rewrite bind_assoc, !bind_print.
      match goal with
      | |- context [(cleanup_duplicates ?f true ;;; ?k) ?w2] =>
          destruct (quiet_dry_run_then_completed f w2) as [-> ->]
      end.
      cbn [drive delete_calls]. by rewrite Hd, Hc.
Qed.
End main_facts.

(** X10: the script deletes only when asked twice.  Without [--delete],
    or when [input] at the prompt gives anything but the line [YES] (another
    line, or [EOFError]), or when [authenticate] does not return [True] (it
    returns [False], or raises), [main] sends no delete request and leaves
    the service as it is. *)
Theorem main_deletes_only_when_confirmed
    {G : Type} `{Drive G} (args : Args) (host : Host) (w : World G) :
  arg_delete args = false \/ typed host ≠ Ok "YES"
  \/ (authenticate host (arg_token args) w).1 ≠ Ok true ->
  delete_calls (main args host w).2 = delete_calls w
  /\ drive (main args host w).2 = drive w.
Proof.
  intros Hcase. by destruct (main_sends_nothing args host w Hcase).
Qed.

Lemma main_deletes_only_when_confirmed_witness :
  delete_calls
    (main (mkArgs "F" true "token.json") hesitant_host failing_second).2
  = delete_calls failing_second
  /\ drive
       (main (mkArgs "F" true "token.json") hesitant_host failing_second).2
     = drive failing_second.
Proof.
  apply (main_deletes_only_when_confirmed
           (mkArgs "F" true "token.json") hesitant_host failing_second).
  right. left. done.
Defined.

(** X11: [authenticate] gives up only for want of [credentials.json], and
    only when the stored token cannot be used: it returns [False] exactly
    when [credentials.json] is missing and either there is no token file or
    the token file holds credentials that are invalid and cannot be
    refreshed (not expired, or without a refresh token); it prints its two
    lines exactly then.  A token file that is there but cannot be loaded
    makes it raise the exception of the loader, [ValueError] for a file that
    holds no stored token, before it looks for [credentials.json] and with
    nothing printed. *)
Theorem authenticate_fails_iff
    {G : Type} `{Drive G} (host : Host) (token_file : string) (w : World G) :
  ((authenticate host token_file w).1 = Ok false <->
   path_exists host "credentials.json" = false
   /\ (path_exists host token_file = false
       \/ exists creds,
            path_exists host token_file = true
            /\ from_authorized_user_file host token_file = Ok creds
            /\ creds_valid creds = false
            /\ (creds_expired creds = false \/ creds_refresh_token creds = false)))
  /\ (forall e, path_exists host token_file = true ->
                from_authorized_user_file host token_file = Raise e ->
                authenticate host token_file w = (Raise e, w))
  /\ stdout (authenticate host token_file w).2
     = stdout w ++ (if decide ((authenticate host token_file w).1 = Ok false)
                    then [LCredentialsNotFound; LPleaseDownload] else []).
Proof.
  split_and!.
  - unfold authenticate.
    destruct (path_exists host token_file) eqn:Htok,
      (from_authorized_user_file host token_file) as [[[] [] []]|e0] eqn:Hload,
      (creds_refresh host) as [[]|], (run_local_server host) as [?|],
      (write_token_file host token_file) as [[]|], (build_service host) as [[]|],
      (path_exists host "credentials.json") eqn:Hcred;
      cbn [negb orb andb bind print ret lift fst snd stdout drive delete_calls
           truthy from_option creds_valid creds_expired creds_refresh_token];
      (split;
       [first [done
              |intros _; split; [done|];
               first [by left|right; eexists; by intuition eauto]]
       |first [done
              |intros [? [?|(c & ? & ? & ? & [?|?])]]; by simplify_eq/=]]).
  - intros e Htok Hload. unfold authenticate. rewrite Htok, Hload. done.
  - unfold authenticate.
    destruct (path_exists host token_file) eqn:Htok,
      (from_authorized_user_file host token_file) as [[[] [] []]|e0] eqn:Hload,
      (creds_refresh host) as [[]|], (run_local_server host) as [?|],
      (write_token_file host token_file) as [[]|], (build_service host) as [[]|],
      (path_exists host "credentials.json") eqn:Hcred;
      cbn [negb orb andb bind print ret lift fst snd stdout drive delete_calls
           truthy from_option creds_valid creds_expired creds_refresh_token];
      case_decide; try done;
      by rewrite <- ?(assoc_L (++)), ?(right_id_L [] (++)).
Qed.

Lemma authenticate_fails_iff_witness :
  authenticate garbled_token_host "token.json" failing_second
  = (Raise ValueError, failing_second).
Proof.
  apply (authenticate_fails_iff garbled_token_host "token.json" failing_second);
    reflexivity.
Defined.

(** An expired token without a refresh token, and no [credentials.json]:
    [authenticate] returns [False] and prints its two lines. *)
Example stale_token_sample :
  (authenticate stale_token_host "token.json" failing_second).1 = Ok false
  /\ stdout (authenticate stale_token_host "token.json" failing_second).2
     = [LCredentialsNotFound; LPleaseDownload].
Proof. compute_done. Qed.

(** ** Runs that stop on a record without an id *)

Section sent_facts.
Context {G : Type} `{Drive G}.

Lemma delete_loop_sent (name : string) (to_delete : list FileRecord)
    (total : nat) (w : World G) :
  exists r w' sent,
    delete_loop false name to_delete total w = (r, w')
    /\ (delete_calls w').*1 = (delete_calls w).*1 ++ sent
    /\ match r with
       | Ok _ => sent = file_ids to_delete
       | Raise e => e = KeyError "id" /\ sent `prefix_of` file_ids to_delete
       end.
Proof.
  revert total w. induction to_delete as [|file rest IH]; intros total w.
  - exists (Ok total), w, []. simpl. by rewrite (right_id_L [] (++)).
  - cbn [delete_loop]. unfold getitem. destruct (file !! "id") as [id|] eqn:Hid.
    + rewrite bind_lift_ok, bind_assoc, bind_print. unfold delete_file.
      rewrite !bind_assoc. unfold bind at 1, request_delete.
      cbn [drive stdout delete_calls]. rewrite (file_ids_cons file id) by done.
      destruct (drive_delete (drive w) id) as [[] g];
        cbn [bind ret print drive stdout delete_calls];
        edestruct (IH (S total)) as (r & w' & sent & Hrun & Hc & Hr);
        exists r, w', (id :: sent); rewrite Hrun; (split; [done|]);
        rewrite Hc; cbn [delete_calls]; rewrite fmap_app, <- (assoc_L (++));
        (split; [done|]);
        (destruct r as [?|e]; [by rewrite Hr|]);
        destruct Hr as [-> Hpre]; (split; [done|]); by apply prefix_cons.
    + exists (Raise (KeyError "id")), w, []. unfold bind, lift.
      rewrite (right_id_L [] (++)). split_and!; try done. apply prefix_nil.
Qed.

Lemma groups_loop_sent (duplicates : Buckets) (total : nat) (w : World G) :
  Forall (fun item => item.2 ≠ []) duplicates ->
  exists plans r w' sent,
    plan_groups duplicates = Ok plans
    /\ groups_loop false duplicates total w = (r, w')
    /\ (delete_calls w').*1 = (delete_calls w).*1 ++ sent
    /\ match r with
       | Ok _ => sent = file_ids (planned_deletions plans)
       | Raise e => e = KeyError "id"
                    /\ sent `prefix_of` file_ids (planned_deletions plans)
       end.
Proof.
  intros Hall. revert total w.
  induction Hall as [|[name files_list] rest Hne _ IH]; intros total w.
  - exists [], (Ok total), w, []. simpl. by rewrite (right_id_L [] (++)).
  - simpl in Hne. destruct (plan_group_ok name files_list Hne) as (p & Hp & _ & _).
    cbn [groups_loop plan_groups]. rewrite Hp, bind_print, bind_lift_ok.
    destruct (IH 0 w) as (plans & _ & _ & _ & Hplans & _). rewrite Hplans.
    unfold getitem. destruct (keep p !! "id") as [kid|] eqn:Hkid.
    + rewrite bind_lift_ok, bind_print.
      edestruct (delete_loop_sent name (to_delete p) total)
        as (r1 & w1 & sent1 & Hrun & Hc1 & Hr1).
      destruct r1 as [total1|e].
      * erewrite bind_ok by exact Hrun.
        destruct (IH total1 w1) as (plans' & r & w' & sent & Hplans' & Hloop & Hc & Hr).
        rewrite Hplans in Hplans'. injection Hplans' as <-.
        exists (p :: plans), r, w', (sent1 ++ sent). split_and!; try done.
        -- rewrite Hc, Hc1. cbn [delete_calls]. by rewrite <- (assoc_L (++)).
        -- rewrite planned_deletions_cons, file_ids_app, Hr1.
           destruct r as [?|e']; [by rewrite Hr|].
           destruct Hr as [-> Hpre]. split; [done|]. by apply prefix_app.
      * unfold bind at 1. rewrite Hrun. destruct Hr1 as [-> Hpre].
        exists (p :: plans), (Raise (KeyError "id")), w1, sent1.
        split_and!; try done.
        rewrite planned_deletions_cons, file_ids_app. by apply prefix_app_r.
    + exists (p :: plans), (Raise (KeyError "id")). eexists. exists [].
      unfold bind at 1, lift. split_and!; try done.
      * by rewrite (right_id_L [] (++)).
      * apply prefix_nil.
Qed.
End sent_facts.

(** X12: a run never asks for anything outside its plan, even when it
    stops half way.  On a listing whose records carry a name, a run that
    deletes either returns or raises [KeyError('id')] at the first record
    without an id; the requests sent until then are a prefix of the planned
    ones and are not taken back. *)
Theorem interrupted_run_sends_a_prefix_of_the_plan
    {G : Type} `{Drive G} (folder_id : string) (w : World G) :
  Forall (has_field "name") (listed_files (drive w) folder_id) ->
  exists plans sent,
    build_plan (listed_files (drive w) folder_id) = Ok plans
    /\ (delete_calls (cleanup_duplicates folder_id false w).2).*1
       = (delete_calls w).*1 ++ sent
    /\ sent `prefix_of` file_ids (planned_deletions plans)
    /\ ((cleanup_duplicates folder_id false w).1 = Ok tt
        \/ (cleanup_duplicates folder_id false w).1 = Raise (KeyError "id")).
Proof.
  intros Hnames.
  destruct (find_duplicates_spec _ Hnames) as (dup & Hfd & _ & Hb).
  assert (Forall (fun item : string * list FileRecord => item.2 ≠ []) dup) as Hdup.
  { apply Forall_forall. intros [n b] [-> Hlen]%Hb. simpl.
    intros Hnil. rewrite Hnil in Hlen. simpl in Hlen. lia. }
  unfold cleanup_duplicates, build_plan. rewrite bind_print, Hfd.
  edestruct (list_files_in_folder_spec (G:=G) folder_id) as (w0 & Hlist & _ & Hc0).
  erewrite bind_ok by exact Hlist. cbn [drive delete_calls] in Hc0 |- *.
  rewrite bind_print, Hfd, bind_lift_ok.
  destruct dup as [|item dup].
  - exists [], []. cbn [print snd fst delete_calls plan_groups].
    rewrite Hc0, (right_id_L [] (++)). split_and!; try done. by left.
  - rewrite bind_print.
    match goal with
    | |- context [bind (groups_loop false (item :: dup) 0) _ ?w1] =>
        destruct (groups_loop_sent (item :: dup) 0 w1 Hdup)
          as (plans & r & w' & sent & Hplans & Hloop & Hc & Hr)
    end.
    exists plans, sent. split; [exact Hplans|].
    cbn [delete_calls] in Hc. rewrite Hc0 in Hc.
    destruct r as [total|e].
    + erewrite bind_ok by exact Hloop. rewrite !bind_print.
      cbn [print snd fst delete_calls]. subst sent.
      split_and!; [done|reflexivity|by left].
    + destruct Hr as [-> Hpre]. erewrite !bind_raises by exact Hloop.
      cbn [snd fst]. split_and!; [done..|by right].
Qed.

Lemma interrupted_run_sends_a_prefix_of_the_plan_witness :
  exists plans sent,
    build_plan (listed_files (drive folder_with_idless) "F") = Ok plans
    /\ (delete_calls (cleanup_duplicates "F" false folder_with_idless).2).*1
       = (delete_calls folder_with_idless).*1 ++ sent
    /\ sent `prefix_of` file_ids (planned_deletions plans)
    /\ ((cleanup_duplicates "F" false folder_with_idless).1 = Ok tt
        \/ (cleanup_duplicates "F" false folder_with_idless).1
           = Raise (KeyError "id")).
Proof.
  apply (interrupted_run_sends_a_prefix_of_the_plan "F" folder_with_idless).
  has_fields.
Defined.

(** The newest copy is kept, the next is deleted, and the copy without an
    id stops the run before the oldest is reached. *)
Example interrupted_run_sample :
  (cleanup_duplicates "F" false folder_with_idless).1 = Raise (KeyError "id")
  /\ delete_calls (cleanup_duplicates "F" false folder_with_idless).2
     = [("E", Succeeds)]
  /\ build_plan (listed_files (drive folder_with_idless) "F")
     = Ok [mkPlan "x.pdf" sample_B [sample_E; sample_idless; sample_A]].
Proof. compute_done. Qed.

(** X13: asked twice, the script carries out the plan.  With [--delete],
    [YES] typed at the prompt and authentication succeeding, [main] returns
    and sends exactly the delete requests of the plan for the listed files,
    in order. *)
Theorem confirmed_main_deletes_the_plan
    {G : Type} `{Drive G} (args : Args) (host : Host) (w : World G) :
  (authenticate host (arg_token args) w).1 = Ok true ->
  arg_delete args = true ->
  typed host = Ok "YES" ->
  Forall (has_field "name") (listed_files (drive w) (arg_folder_id args)) ->
  Forall (has_field "id") (listed_files (drive w) (arg_folder_id args)) ->
  exists plans,
    build_plan (listed_files (drive w) (arg_folder_id args)) = Ok plans
    /\ (main args host w).1 = Ok tt
    /\ (delete_calls (main args host w).2).*1
       = (delete_calls w).*1 ++ file_ids (planned_deletions plans).
Proof.
  intros Hok Hdelete Htyped Hnames Hids. unfold main. rewrite !bind_print.
  edestruct (authenticate_spec (G:=G) host (arg_token args))
    as (r & w1 & Hauth & Hd & Hc & Hany).
  rewrite Hany in Hok. subst r.
  erewrite bind_ok by exact Hauth. cbn [drive delete_calls] in Hd, Hc. cbn [negb].
  rewrite !bind_print, Hdelete. cbn [negb].
  rewrite bind_lift_ok_ret. cbv beta. rewrite !bind_print, Htyped, bind_lift_ok.
  cbn [String.eqb Ascii.eqb Bool.eqb negb].
  match goal with
  | |- context [bind (cleanup_duplicates ?f false) _ ?w2] =>
      destruct (cleanup_duplicates_spec f false w2)
        as (plans & w' & Hplans & Hrun & Hcalls & _)
  end.
  { cbn [drive]. by rewrite Hd. }
  { cbn [drive]. by rewrite Hd. }
  cbn [drive delete_calls] in Hplans, Hcalls. rewrite Hd in Hplans. rewrite Hc in Hcalls.
  exists plans. split; [done|].
  erewrite !bind_ok by exact Hrun. rewrite !bind_print. by cbn [print fst snd delete_calls].
Qed.

Lemma confirmed_main_deletes_the_plan_witness :
  exists plans,
    build_plan (listed_files (drive failing_second) "F") = Ok plans
    /\ (main (mkArgs "F" true "token.json") ready_host failing_second).1 = Ok tt
    /\ (delete_calls (main (mkArgs "F" true "token.json") ready_host failing_second).2).*1
       = (delete_calls failing_second).*1 ++ file_ids (planned_deletions plans).
Proof.
  apply (confirmed_main_deletes_the_plan
           (mkArgs "F" true "token.json") ready_host failing_second);
    compute_done.
Defined.

(** * Token generation *)

(** ** Base64 keeps the data *)

Lemma b64_digits_checked :
  Forall (fun k => b64_value (b64_digit (N.of_nat k)) = N.of_nat k
                   /\ b64_digit (N.of_nat k) ≠ b64_pad) (seq 0 64).
Proof. compute_done. Qed.

Lemma b64_value_digit (n : N) : (n < 64)%N -> b64_value (b64_digit n) = n.
Proof.
  intros Hn.
  pose proof (proj1 (Forall_forall _ _) b64_digits_checked (N.to_nat n)) as Hk.
  cbv beta in Hk. rewrite N2Nat.id in Hk. apply Hk. apply elem_of_seq. lia.
Qed.

Lemma b64_digit_not_pad (n : N) : (n < 64)%N -> b64_digit n ≠ b64_pad.
Proof.
  intros Hn.
  pose proof (proj1 (Forall_forall _ _) b64_digits_checked (N.to_nat n)) as Hk.
  cbv beta in Hk. rewrite N2Nat.id in Hk. apply Hk. apply elem_of_seq. lia.
Qed.

Ltac b64_arith := zify; Z.to_euclidean_division_equations; lia.

Ltac b64_digit_back :=
  repeat match goal with
  | |- context [b64_value (b64_digit ?n)] =>
      rewrite (b64_value_digit n) by b64_arith
  end.

Ltac b64_not_pad :=
  match goal with
  | |- context [decide (b64_digit ?n = b64_pad)] =>
      rewrite (decide_False (P := b64_digit n = b64_pad))
        by (apply b64_digit_not_pad; b64_arith)
  end.

Lemma b64_ungroup_groups_bounded (k : nat) (bytes : list N) :
  length bytes <= k -> Forall (fun b => (b < 256)%N) bytes ->
  b64_ungroup (b64_groups bytes) = bytes.
Proof.
  revert bytes. induction k as [|k IH]; intros bytes Hlen Hall.
  - by destruct bytes; [|simpl in Hlen; lia].
  - destruct bytes as [|a [|b [|c rest]]]; [done|..].
    + apply Forall_cons in Hall as [Ha _].
      cbn [b64_groups b64_ungroup]. rewrite decide_True by done.
      b64_digit_back. f_equal. b64_arith.
    + apply Forall_cons in Hall as [Ha Hall]. apply Forall_cons in Hall as [Hb _].
      cbn [b64_groups b64_ungroup]. b64_not_pad. rewrite decide_True by done.
      b64_digit_back. f_equal; [|f_equal]; b64_arith.
    + apply Forall_cons in Hall as [Ha Hall]. apply Forall_cons in Hall as [Hb Hall].
      apply Forall_cons in Hall as [Hc Hall].
      cbn [b64_groups b64_ungroup]. do 2 b64_not_pad.
      b64_digit_back. rewrite IH; [|simpl in Hlen; lia|done].
      f_equal; [|f_equal; [|f_equal]]; b64_arith.
Qed.

Lemma ascii_of_N_of_ascii_list (l : list ascii) :
  ascii_of_N <$> (N_of_ascii <$> l) = l.
Proof.
  induction l as [|c l IH]; [done|].
  by rewrite !fmap_cons, ascii_N_embedding, IH.
Qed.

Lemma b64decode_b64encode (data : string) : b64decode (b64encode data) = data.
Proof.
  unfold b64decode, b64encode.
  rewrite list_ascii_of_string_of_list_ascii.
  rewrite (b64_ungroup_groups_bounded (length (N_of_ascii <$> list_ascii_of_string data)));
    [|done|].
  - by rewrite ascii_of_N_of_ascii_list, string_of_list_ascii_of_string.
  - apply Forall_fmap, Forall_forall. intros c _. apply N_ascii_bounded.
Qed.

Lemma b64_groups_length (k : nat) (bytes : list N) :
  length bytes <= k ->
  length (b64_groups bytes) = 4 * ((length bytes + 2) / 3).
Proof.
  revert bytes. induction k as [|k IH]; intros bytes Hlen.
  - by destruct bytes; [|simpl in Hlen; lia].
  - destruct bytes as [|a [|b [|c rest]]]; [done..|].
    cbn [b64_groups length]. rewrite IH by (simpl in Hlen; lia).
    replace (S (S (S (length rest))) + 2) with (1 * 3 + (length rest + 2)) by lia.
    rewrite Nat.div_add_l by done. lia.
Qed.

Lemma string_length_list (s : string) :
  String.length s = length (list_ascii_of_string s).
Proof. induction s as [|c s IH]; simpl; [done|]. by rewrite IH. Qed.

(** X14: the base64 text keeps the data.  Decoding what [b64encode]
    gives returns the text that was encoded, so two different texts never
    get the same encoding; and the encoding of [n] bytes has four characters
    for every three bytes begun. *)
Theorem base64_keeps_the_data (data : string) :
  b64decode (b64encode data) = data
  /\ (forall other, b64encode other = b64encode data -> other = data)
  /\ String.length (b64encode data) = 4 * ((String.length data + 2) / 3).
Proof.
  split_and!.
  - apply b64decode_b64encode.
  - intros other Heq. rewrite <- (b64decode_b64encode other), Heq.
    apply b64decode_b64encode.
  - unfold b64encode.
    rewrite !string_length_list, list_ascii_of_string_of_list_ascii.
    rewrite (b64_groups_length (length (N_of_ascii <$> list_ascii_of_string data)))
      by done.
    by rewrite length_fmap.
Qed.

Example b64encode_samples :
  b64encode "Man" = "TWFu" /\ b64encode "Ma" = "TWE=" /\ b64encode "M" = "TQ=="
  /\ b64encode "" = "" /\ b64encode "light work." = "bGlnaHQgd29yay4=".
Proof. compute_done. Qed.

(** ** What the script writes *)

(** Text without a carriage return is read as it is decoded. *)
Lemma universal_newlines_id (text : string) :
  CR ∉ list_ascii_of_string text -> universal_newlines text = text.
Proof.
  induction text as [|c rest IH]; [done|]. cbn [list_ascii_of_string].
  intros [Hc Hrest]%not_elem_of_cons. cbn [universal_newlines].
  destruct (Ascii.eqb c CR) eqn:Heq; [by apply Ascii.eqb_eq in Heq|].
  by rewrite IH.
Qed.

Example universal_newlines_samples :
  universal_newlines crlf_secrets = crlf_secrets_read
  /\ universal_newlines (String "a" (String CR "b")) = String "a" (String LF "b")
  /\ universal_newlines (String CR (String CR (String LF (String LF ""))))
     = String LF (String LF (String LF "")).
Proof. compute_done. Qed.

(** X15: the script writes its two output files and nothing else: on every
    path through it, also the failing ones, every other file, with
    [credentials.json] among them, is as it was. *)
Theorem generate_token_touches_only_its_outputs
    (decode : string -> option string)
    (run_flow : string -> list string -> option Granted)
    (fs : gmap string string) (path : string) :
  path ≠ "credentials_encoded.txt" -> path ≠ "token_encoded.txt" ->
  (generate_token decode run_flow fs).1.2 !! path = fs !! path.
Proof.
  intros Hc Ht. unfold generate_token.
  destruct (fs !! "credentials.json") as [stored|] eqn:Hs; [|done].
  destruct (read_text decode stored) as [credentials_data|]; [|done].
  rewrite lookup_insert_ne, Hs by done.
  destruct (run_flow stored SCOPES) as [creds|]; simpl.
  - by rewrite !lookup_insert_ne.
  - by rewrite lookup_insert_ne.
Qed.

Lemma generate_token_touches_only_its_outputs_witness :
  (generate_token ascii_decode granting_flow sample_files).1.2 !! "credentials.json"
  = sample_files !! "credentials.json".
Proof.
  apply (generate_token_touches_only_its_outputs
           ascii_decode granting_flow sample_files "credentials.json"); done.
Defined.

(** X16: when [credentials.json] is there, its bytes can be decoded and
    the flow returns credentials, the script runs to its end and leaves two
    files that decode to what the script read: [token_encoded.txt] to the
    token, and [credentials_encoded.txt] to the text read from
    [credentials.json], which is the decoded content with every [\r\n] and
    lone [\r] turned into [\n].  It is the content of [credentials.json]
    itself when that is decoded to the same bytes and holds no carriage
    return. *)
Theorem completed_script_stores_decodable_text
    (decode : string -> option string)
    (run_flow : string -> list string -> option Granted)
    (fs : gmap string string) (stored text : string) (creds : Granted) :
  fs !! "credentials.json" = Some stored ->
  decode stored = Some text ->
  run_flow stored SCOPES = Some creds ->
  (generate_token decode run_flow fs).1.1 = Completed
  /\ b64decode <$> (generate_token decode run_flow fs).1.2 !! "credentials_encoded.txt"
     = Some (universal_newlines text)
  /\ b64decode <$> (generate_token decode run_flow fs).1.2 !! "token_encoded.txt"
     = Some (token_json creds)
  /\ (text = stored -> CR ∉ list_ascii_of_string stored ->
      b64decode <$> (generate_token decode run_flow fs).1.2 !! "credentials_encoded.txt"
      = Some stored).
Proof.
  intros Hs Hdecode Hflow.
  assert ((generate_token decode run_flow fs).1.1 = Completed
          /\ b64decode <$> (generate_token decode run_flow fs).1.2
                             !! "credentials_encoded.txt"
             = Some (universal_newlines text)
          /\ b64decode <$> (generate_token decode run_flow fs).1.2
                             !! "token_encoded.txt"
             = Some (token_json creds)) as (Hend & Hcred & Htoken).
  { unfold generate_token, read_text. rewrite Hs, Hdecode. cbn [fmap option_fmap option_map].
    rewrite lookup_insert_ne, Hs, Hflow by done. cbn [fst snd].
    rewrite lookup_insert_ne, !lookup_insert_eq by done.
    cbn [fmap option_fmap option_map]. by rewrite !b64decode_b64encode. }
  split_and!; try done.
  intros -> Hcr. by rewrite Hcred, universal_newlines_id.
Qed.

(** Client secrets saved with [\r\n] line endings are stored with [\n]
    line endings. *)
Lemma completed_script_stores_decodable_text_witness :
  (generate_token ascii_decode granting_flow crlf_files).1.1 = Completed
  /\ b64decode <$> (generate_token ascii_decode granting_flow crlf_files).1.2
                     !! "credentials_encoded.txt"
     = Some crlf_secrets_read
  /\ b64decode <$> (generate_token ascii_decode granting_flow crlf_files).1.2
                     !! "token_encoded.txt"
     = Some "{token: t0}".
Proof.
  destruct (completed_script_stores_decodable_text
              ascii_decode granting_flow crlf_files crlf_secrets crlf_secrets
              (mkGranted "{token: t0}" SCOPES))
    as (Hend & Hcred & Htoken & _); [reflexivity..|].
  split_and!; [exact Hend|exact Hcred|exact Htoken].
Defined.

Example stored_text_samples :
  (generate_token ascii_decode granting_flow sample_files).1.2 !! "credentials_encoded.txt"
  = Some (b64encode sample_secrets)
  /\ (generate_token ascii_decode granting_flow crlf_files).1.2 !! "credentials_encoded.txt"
     = Some (b64encode crlf_secrets_read)
  /\ b64encode crlf_secrets_read ≠ b64encode crlf_secrets.
Proof. compute_done. Qed.

(** X17: a run that does not reach its end never writes the token file:
    [token_encoded.txt] is as it was, so a file from an earlier run stays.
    Without [credentials.json], or when its bytes cannot be decoded, nothing
    at all is written or printed; when the flow fails,
    [credentials_encoded.txt] has already been written and announced. *)
Theorem failed_script_leaves_token_file
    (decode : string -> option string)
    (run_flow : string -> list string -> option Granted)
    (fs : gmap string string) :
  (generate_token decode run_flow fs).1.1 ≠ Completed ->
  (generate_token decode run_flow fs).1.2 !! "token_encoded.txt"
  = fs !! "token_encoded.txt"
  /\ match fs !! "credentials.json" with
     | None =>
         generate_token decode run_flow fs
         = (Uncaught (FileNotFoundError "credentials.json"), fs, [])
     | Some stored =>
         match decode stored with
         | None =>
             generate_token decode run_flow fs = (Uncaught UnicodeDecodeError, fs, [])
         | Some text =>
             generate_token decode run_flow fs
             = (Uncaught FlowError,
                <["credentials_encoded.txt" := b64encode (universal_newlines text)]> fs,
                [TCredentialsSaved])
         end
     end.
Proof.
  unfold generate_token, read_text.
  destruct (fs !! "credentials.json") as [stored|] eqn:Hs; [|done].
  destruct (decode stored) as [text|]; cbn [fmap option_fmap option_map]; [|done].
  rewrite lookup_insert_ne, Hs by done.
  destruct (run_flow stored SCOPES) as [creds|]; cbn [fst snd]; [done|].
  intros _. by rewrite lookup_insert_ne.
Qed.

Lemma failed_script_leaves_token_file_witness :
  (generate_token ascii_decode failing_flow sample_files).1.2 !! "token_encoded.txt"
  = Some "stale"
  /\ generate_token ascii_decode failing_flow sample_files
     = (Uncaught FlowError,
        <["credentials_encoded.txt" := b64encode sample_secrets]> sample_files,
        [TCredentialsSaved]).
Proof.
  apply (failed_script_leaves_token_file ascii_decode failing_flow sample_files). done.
Defined.

(** Bytes that the locale cannot decode stop the script at the first read. *)
Example undecodable_secrets_sample :
  generate_token ascii_decode granting_flow latin1_files
  = (Uncaught UnicodeDecodeError, latin1_files, []).
Proof. done. Qed.

(** X18: a token without the [gmail.send] scope is announced, not refused:
    the script runs to its end and writes the same files either way, and the
    line it prints about the scope says [NOT included] exactly when
    [gmail.send] is not among the granted scopes. *)
Theorem missing_scope_is_reported_not_fatal
    (decode : string -> option string)
    (run_flow : string -> list string -> option Granted)
    (fs : gmap string string) (stored text : string) (creds : Granted) :
  fs !! "credentials.json" = Some stored ->
  decode stored = Some text ->
  run_flow stored SCOPES = Some creds ->
  generate_token decode run_flow fs
  = (Completed,
     <["token_encoded.txt" := b64encode (token_json creds)]>
       (<["credentials_encoded.txt" := b64encode (universal_newlines text)]> fs),
     [TCredentialsSaved; TTokenSaved; TScopes (granted_scopes creds);
      if decide ("https://www.googleapis.com/auth/gmail.send" ∈ granted_scopes creds)
      then TGmailSendIncluded else TGmailSendMissing;
      TFilesGenerated; TCredentialsFile; TTokenFile]).
Proof.
  intros Hs Hdecode Hflow. unfold generate_token, read_text.
  rewrite Hs, Hdecode. cbn [fmap option_fmap option_map].
  by rewrite lookup_insert_ne, Hs, Hflow.
Qed.

Lemma missing_scope_is_reported_not_fatal_witness :
  generate_token ascii_decode drive_only_flow sample_files
  = (Completed,
     <["token_encoded.txt" := b64encode "{token: t0}"]>
       (<["credentials_encoded.txt" := b64encode sample_secrets]> sample_files),
     [TCredentialsSaved; TTokenSaved;
      TScopes ["https://www.googleapis.com/auth/drive"];
      TGmailSendMissing; TFilesGenerated; TCredentialsFile; TTokenFile]).
Proof.
  exact (missing_scope_is_reported_not_fatal
           ascii_decode drive_only_flow sample_files sample_secrets sample_secrets
           (mkGranted "{token: t0}" ["https://www.googleapis.com/auth/drive"])
           eq_refl eq_refl eq_refl).
Defined.

(** * More on the plan *)

(** X19: the order of a plan is fixed by the listing.  The keep record
    followed by the delete records is the group in descending order of
    [modifiedTime], records of equal time in the order fetched, and it is
    the only arrangement of the group with these two properties: older
    copies are deleted after newer ones, whatever sorting algorithm runs. *)
Theorem plan_is_the_stable_descending_order
    (name : string) (group : list FileRecord) (p : Plan) :
  plan_group name group = Ok p ->
  descending mtime_key (keep p :: to_delete p)
  /\ same_order_per_key mtime_key group (keep p :: to_delete p)
  /\ forall l, descending mtime_key l -> same_order_per_key mtime_key group l ->
               l = keep p :: to_delete p.
Proof.
  intros [_ Hs]%plan_group_inv. rewrite <- Hs. split_and!.
  - apply sort_desc_descending.
  - apply sort_desc_stable.
  - intros l Hdesc Hsame.
    eapply stable_sort_unique;
      [exact Hdesc|exact Hsame|apply sort_desc_descending|apply sort_desc_stable].
Qed.

Lemma plan_is_the_stable_descending_order_witness :
  descending mtime_key [sample_B; sample_X; sample_Y]
  /\ same_order_per_key mtime_key [sample_X; sample_B; sample_Y]
       [sample_B; sample_X; sample_Y]
  /\ forall l, descending mtime_key l ->
               same_order_per_key mtime_key [sample_X; sample_B; sample_Y] l ->
               l = [sample_B; sample_X; sample_Y].
Proof.
  apply (plan_is_the_stable_descending_order
           "z.pdf" [sample_X; sample_B; sample_Y]
           (mkPlan "z.pdf" sample_B [sample_X; sample_Y])).
  compute_done.
Defined.

(** ** The numbers of the summary *)

Lemma plan_groups_deletions (duplicates : Buckets) (plans : list Plan) :
  plan_groups duplicates = Ok plans ->
  length (planned_deletions plans)
  = sum_list_with (fun item => length item.2 - 1) duplicates.
Proof.
  revert plans. induction duplicates as [|[n b] dup IH]; intros plans; simpl.
  - by intros [= <-].
  - destruct (plan_group n b) as [p|] eqn:Hp; [|done].
    destruct (plan_groups dup) as [ps|]; [|done]. intros [= <-].
    rewrite planned_deletions_cons, length_app, (IH ps) by done.
    apply plan_group_inv in Hp as [_ Hs]. apply (f_equal length) in Hs.
    rewrite sort_desc_length in Hs. simpl in Hs. lia.
Qed.

Lemma filter_multiple_deletions (d : Buckets) :
  sum_list_with (fun item => length item.2 - 1) (filter_multiple d)
  = sum_list_with (fun item => length item.2 - 1) d.
Proof.
  unfold filter_multiple. induction d as [|[n b] d IH]; [done|].
  rewrite filter_cons. simpl. destruct (decide (1 < length b)); simpl; lia.
Qed.

Lemma buckets_total (d : Buckets) :
  Forall (fun item => item.2 ≠ []) d ->
  sum_list_with (fun item => length item.2 - 1) d + length d = length (concat d.*2).
Proof.
  induction 1 as [|[n b] d Hne _ IH]; [done|].
  rewrite fmap_cons. cbn [concat sum_list_with length snd] in *.
  rewrite length_app. destruct b as [|x b]; [done|]. cbn [length]. lia.
Qed.

Lemma plan_groups_ok (duplicates : Buckets) :
  Forall (fun item => item.2 ≠ []) duplicates ->
  exists plans, plan_groups duplicates = Ok plans.
Proof.
  induction 1 as [|[n b] dup Hne _ [plans IH]]; [by exists []|].
  simpl in Hne. destruct (plan_group_ok n b Hne) as (p & Hp & _).
  exists (p :: plans). simpl. by rewrite Hp, IH.
Qed.

(** One record of every name is not planned for deletion. *)
Lemma planned_deletions_count (files : list FileRecord) :
  Forall (has_field "name") files ->
  exists plans,
    build_plan files = Ok plans
    /\ length (planned_deletions plans)
       + length (remove_dups (omap (fun f => f !! "name") files))
       = length files.
Proof.
  intros Hnames.
  destruct (group_by_name_spec files Hnames) as (d & Hd & Hnd & Hb & Hperm).
  assert (Forall (fun item : string * list FileRecord => item.2 ≠ []) d) as Hne.
  { apply Forall_forall. intros [n b] Hin. by apply Hb in Hin as [_ ?]. }
  destruct (plan_groups_ok (filter_multiple d)) as [plans Hplans].
  { apply Forall_forall. intros item [_ Hin]%list_elem_of_filter.
    by apply (proj1 (Forall_forall _ _) Hne). }
  exists plans. unfold build_plan, find_duplicates. rewrite Hd. split; [done|].
  rewrite (plan_groups_deletions _ _ Hplans), filter_multiple_deletions.
  rewrite <- (Permutation_length Hperm), <- (buckets_total d Hne). f_equal.
  rewrite <- (length_fmap fst d). apply Permutation_length.
  apply NoDup_Permutation; [apply NoDup_remove_dups|done|].
  intros n. rewrite elem_of_remove_dups, list_elem_of_omap, list_elem_of_fmap. split.
  - intros (f & Hf & Hn). exists (n, filter (named n) files). split; [done|].
    apply Hb. split; [done|]. intros Hnil.
    assert (f ∈ filter (named n) files) as Hin by (by apply list_elem_of_filter).
    rewrite Hnil in Hin. by apply elem_of_nil in Hin.
  - intros ([n' b] & -> & Hin). apply Hb in Hin as [-> Hne'].
    destruct (filter (named n') files) as [|f l] eqn:Hf; [done|].
    assert (f ∈ filter (named n') files) as [Hn Hin]%list_elem_of_filter
      by (rewrite Hf; apply list_elem_of_here).
    eauto.
Qed.

(** The groups returned are as many as the names carried by two records or
    more. *)
Lemma duplicates_count (files : list FileRecord) (dup : Buckets) :
  find_duplicates files = Ok dup ->
  length dup
  = length (filter (fun n => 1 < length (filter (named n) files))
                   (remove_dups (omap (fun f => f !! "name") files))).
Proof.
  intros Hfd. pose proof (find_duplicates_inv _ _ Hfd) as Hnames.
  destruct (find_duplicates_spec files Hnames) as (dup' & Hfd' & Hnd & Hb).
  rewrite Hfd in Hfd'. injection Hfd' as <-.
  rewrite <- (length_fmap fst dup). apply Permutation_length.
  apply NoDup_Permutation; [done|apply NoDup_filter, NoDup_remove_dups|].
  intros n. rewrite list_elem_of_filter, elem_of_remove_dups, list_elem_of_omap,
    list_elem_of_fmap. split.
  - intros ([n' b] & -> & Hin). apply Hb in Hin as [-> Hlen]. simpl. split; [done|].
    destruct (filter (named n') files) as [|f l] eqn:Hf; [simpl in Hlen; lia|].
    assert (f ∈ filter (named n') files) as [Hn Hin]%list_elem_of_filter
      by (rewrite Hf; apply list_elem_of_here).
    eauto.
  - intros [Hlen _]. exists (n, filter (named n) files). split; [done|]. by apply Hb.
Qed.

(** X20: the numbers of the summary add up.  On a listing whose records
    carry a name and an id and in which some name occurs twice, the run ends
    by printing the summary: the files scanned are the files listed, the
    files with duplicates are the names carried by two records or more, and
    the files to delete (the number repeated in the last line of a run that
    deletes) are the files scanned less the different names among them, one
    file of every name not being counted. *)
Theorem files_to_delete_is_files_less_names
    {G : Type} `{Drive G} (folder_id : string) (dry_run : bool) (w : World G)
    (n : string) :
  Forall (has_field "name") (listed_files (drive w) folder_id) ->
  Forall (has_field "id") (listed_files (drive w) folder_id) ->
  1 < length (filter (named n) (listed_files (drive w) folder_id)) ->
  exists out scanned groups removed,
    stdout (cleanup_duplicates folder_id dry_run w).2
    = out ++ [LRule; LSummary; LTotalScanned scanned; LFilesWithDuplicates groups;
              LFilesToDelete removed]
          ++ (if dry_run then [LDryRunMode; LRunWithDelete]
              else [LSuccessfullyRemoved removed])
    /\ scanned = length (listed_files (drive w) folder_id)
    /\ groups
       = length (filter (fun m => 1 < length (filter (named m)
                                               (listed_files (drive w) folder_id)))
                        (remove_dups (omap (fun f => f !! "name")
                                           (listed_files (drive w) folder_id))))
    /\ removed
       + length (remove_dups (omap (fun f => f !! "name")
                                   (listed_files (drive w) folder_id)))
       = scanned.
Proof.
  intros Hnames Hids Htwice.
  destruct (find_duplicates_spec _ Hnames) as (dup & Hfd & _ & Hb).
  pose proof (duplicates_well_formed _ _ Hfd Hids) as Hdup.
  pose proof (duplicates_count _ _ Hfd) as Hgroups.
  destruct (planned_deletions_count _ Hnames) as (plans & Hplans & Hcount).
  unfold build_plan in Hplans. rewrite Hfd in Hplans.
  unfold cleanup_duplicates. rewrite bind_print.
  edestruct (list_files_in_folder_spec (G:=G) folder_id) as (w1 & Hlist & _ & _).
  erewrite bind_ok by exact Hlist. cbn [drive].
  rewrite bind_print, Hfd, bind_lift_ok.
  destruct dup as [|item dup].
  { assert ((n, filter (named n) (listed_files (drive w) folder_id)) ∈ @nil (string * list FileRecord))
      as Hin by (by apply Hb).
    by apply elem_of_nil in Hin. }
  rewrite bind_print.
  edestruct (groups_loop_spec dry_run (item :: dup) 0)
    as (plans' & w2 & Hplans' & Hloop & _); [exact Hdup|].
  rewrite Hplans in Hplans'. injection Hplans' as <-.
  erewrite bind_ok by exact Hloop. rewrite !bind_print.
  exists (stdout w2), (length (listed_files (drive w) folder_id)),
    (length (item :: dup)), (length (planned_deletions plans)).
  split_and!; [|done|done|done].
  destruct dry_run; rewrite ?bind_print; cbn [print stdout snd];
    by rewrite <- !(assoc_L (++)).
Qed.

Lemma files_to_delete_is_files_less_names_witness :
  exists out scanned groups removed,
    stdout (cleanup_duplicates "F" false failing_second).2
    = out ++ [LRule; LSummary; LTotalScanned scanned; LFilesWithDuplicates groups;
              LFilesToDelete removed]
          ++ [LSuccessfullyRemoved removed]
    /\ scanned = length (listed_files (drive failing_second) "F")
    /\ groups
       = length (filter (fun m => 1 < length (filter (named m)
                                               (listed_files (drive failing_second) "F")))
                        (remove_dups (omap (fun f => f !! "name")
                                           (listed_files (drive failing_second) "F"))))
    /\ removed
       + length (remove_dups (omap (fun f => f !! "name")
                                   (listed_files (drive failing_second) "F")))
       = scanned.
Proof.
  apply (files_to_delete_is_files_less_names "F" false failing_second "x.pdf");
    compute_done.
Defined.

(** Four copies of [x.pdf]: four files scanned, one name with duplicates,
    three files to delete. *)
Example summary_sample :
  drop 8 (stdout (cleanup_duplicates "F" true failing_second).2)
  = [LRule; LSummary; LTotalScanned 4; LFilesWithDuplicates 1;
     LFilesToDelete 3; LDryRunMode; LRunWithDelete].
Proof. compute_done. Qed.

(** ** The order of the groups *)

Lemma group_step_keys (d : Buckets) (f : FileRecord) (n : string) :
  named n f ->
  exists d', group_step d f = Ok d'
    /\ d'.*1 = if decide (n ∈ d.*1) then d.*1 else d.*1 ++ [n].
Proof.
  intros Hn. unfold group_step, getitem. rewrite Hn.
  unfold dict_contains, dict_getitem.
  destruct (dict_get d n) as [l|] eqn:Hg; cbn [negb].
  - rewrite Hg. eexists. split; [done|]. rewrite dict_set_keys.
    unfold dict_contains. rewrite Hg. rewrite decide_True; [done|].
    apply dict_get_Some_elem in Hg. apply list_elem_of_fmap. by exists (n, l).
  - rewrite dict_get_set_eq. eexists. split; [done|].
    rewrite !dict_set_keys. unfold dict_contains. rewrite dict_get_set_eq, Hg.
    rewrite decide_False; [done|]. by apply dict_get_None.
Qed.

Lemma group_loop_keys (files : list FileRecord) (d d' : Buckets) :
  group_loop files d = Ok d' ->
  d'.*1 = d.*1 ++ filter (fun n => n ∉ d.*1)
                         (first_seen (omap (fun f => f !! "name") files)).
Proof.
  revert d. induction files as [|f files IH]; intros d; simpl.
  - intros [= <-]. by rewrite filter_nil, (right_id_L [] (++)).
  - destruct (f !! "name") as [n|] eqn:Hn;
      [|by rewrite group_step_raises].
    destruct (group_step_keys d f n Hn) as (d1 & -> & Hkeys). intros Hloop.
    rewrite (IH d1 Hloop), Hkeys. cbn [first_seen].
    destruct (decide (n ∈ d.*1)) as [Hin|Hnew].
    + rewrite filter_cons_False by (intros Hno; by apply Hno).
      f_equal. rewrite list_filter_filter. apply list_filter_iff.
      intros m. split; [|tauto]. intros Hm. split; [done|]. by intros ->.
    + rewrite filter_cons_True by done. rewrite <- (assoc_L (++)). f_equal.
      cbn [app]. f_equal. rewrite list_filter_filter. apply list_filter_iff.
      intros m. rewrite not_elem_of_app, list_elem_of_singleton. tauto.
Qed.

Lemma filter_keys {V} (P : string * V -> Prop) (Q : string -> Prop)
    `{!forall x, Decision (P x)} `{!forall n, Decision (Q n)} (d : list (string * V)) :
  Forall (fun item => P item <-> Q item.1) d ->
  (filter P d).*1 = filter Q d.*1.
Proof.
  induction 1 as [|[n v] d Hiff _ IH]; [done|].
  rewrite fmap_cons, !filter_cons. simpl in Hiff. cbn [fst].
  destruct (decide (P (n, v))) as [HP|HP], (decide (Q n)) as [HQ|HQ];
    try tauto; by rewrite ?fmap_cons, IH.
Qed.

(** X21: the groups come in the order of the listing.  The names that
    [find_duplicates] returns are the names carried by more than one
    record, in the order in which each name first occurs in the input; this
    is the order in which [cleanup_duplicates] reports and deletes. *)
Theorem duplicates_in_first_seen_order (files : list FileRecord) :
  Forall (has_field "name") files ->
  exists dup,
    find_duplicates files = Ok dup
    /\ dup.*1 = filter (fun n => 1 < length (filter (named n) files))
                       (first_seen (omap (fun f => f !! "name") files)).
Proof.
  intros Hnames.
  destruct (group_by_name_spec files Hnames) as (d & Hd & _ & Hb & _).
  exists (filter_multiple d). unfold find_duplicates. rewrite Hd. split; [done|].
  pose proof (group_loop_keys files [] d Hd) as Hkeys. cbn [fmap list_fmap app] in Hkeys.
  rewrite filter_all in Hkeys
    by (apply Forall_forall; intros n _; apply not_elem_of_nil).
  rewrite <- Hkeys. unfold filter_multiple. apply filter_keys.
  apply Forall_forall. intros [n b] Hin. apply Hb in Hin as [-> _]. done.
Qed.

Lemma duplicates_in_first_seen_order_witness :
  exists dup,
    find_duplicates [sample_X; sample_A; sample_C; sample_B; sample_Y] = Ok dup
    /\ dup.*1
       = filter (fun n => 1 < length (filter (named n)
                                        [sample_X; sample_A; sample_C; sample_B; sample_Y]))
                (first_seen (omap (fun f => f !! "name")
                               [sample_X; sample_A; sample_C; sample_B; sample_Y])).
Proof.
  apply (duplicates_in_first_seen_order
           [sample_X; sample_A; sample_C; sample_B; sample_Y]).
  has_fields.
Defined.

Example duplicates_order_sample :
  (fun dup => dup.*1)
    <$> (match find_duplicates [sample_X; sample_A; sample_C; sample_B; sample_Y] with
         | Ok dup => Some dup
         | Raise _ => None
         end)
  = Some ["z.pdf"; "x.pdf"].
Proof. compute_done. Qed.
